(** * GEDI L4A extraction: a shallow embedding of [pipelines/gedi_extract_l4a.py]

    The script turns one GEDI L4A HDF5 granule into a CSV table.  This file
    embeds its schema declarations ([GediVars], [gedi_vars], [group_vars],
    the two fill lists), the per-beam pipeline of [write_csv] (assemble,
    replace the fill values by NaN, drop rows without coordinates, append to
    the CSV) and the file-name guard of [extract_values], and proves
    properties of them. *)

From Stdlib Require Import List String Ascii Bool Arith ZArith QArith Lia.
From Stdlib Require Import Sorting.Sorted Sorting.Permutation Sorting.Mergesort.
From Stdlib Require Import Orders Relations RelationClasses.
Import ListNotations.

Local Open Scope string_scope.
Local Open Scope list_scope.

(** ** Python built-ins used by the script *)

(** The order of [str] values: lexicographic by character code. *)
Module StringOrder <: TotalLeBool.
Definition t := string.
Definition leb : t -> t -> bool := String.leb.
Definition leb_total : forall a b, leb a b = true \/ leb b a = true :=
  String.leb_total.
End StringOrder.

Module StringSort := Sort StringOrder.

(** [sorted(iterable)] on strings. *)
Definition sorted (l : list string) : list string := StringSort.sort l.

(** [itertools.chain(a, b)]. *)
Definition chain (a b : list string) : list string := a ++ b.

(** [s.startswith(p)]. *)
Definition startswith (s p : string) : bool := String.prefix p s.

(** [s.endswith(p)]. *)
Definition endswith (s p : string) : bool :=
  (String.length p <=? String.length s)%nat
  && String.eqb (String.substring (String.length s - String.length p)
                                  (String.length p) s) p.

(** [name in names] for a list of strings. *)
Definition mem (x : string) (l : list string) : bool :=
  existsb (String.eqb x) l.

(** ** The schema registry *)

(** [class GediVars]: a frozen dataclass of three name sequences. *)
Record GediVars := mkGediVars {
  integer_variables : list string;
  float_variables : list string;
  string_variables : list string
}.

(** [GediVars.numeric_vars]. *)
Definition numeric_vars (g : GediVars) : list string :=
  sorted (chain (integer_variables g) (float_variables g)).

(** [GediVars.all_vars]. *)
Definition all_vars (g : GediVars) : list string :=
  sorted (chain (numeric_vars g) (string_variables g)).

(** The top-level schema [gedi_vars]. *)
Definition gedi_vars : GediVars := {|
  integer_variables := [
    "algorithm_run_flag"; "beam"; "channel"; "degrade_flag";
    "l2_quality_flag"; "l4_quality_flag"; "master_int";
    "predictor_limit_flag"; "response_limit_flag"; "selected_algorithm";
    "selected_mode"; "selected_mode_flag"; "surface_flag" ];
  float_variables := [
    "agbd"; "agbd_pi_lower"; "agbd_pi_upper"; "agbd_se"; "agbd_t";
    "agbd_t_se"; "delta_time"; "elev_lowestmode"; "lat_lowestmode";
    "lon_lowestmode"; "master_frac"; "sensitivity"; "solar_elevation" ];
  string_variables := [
    "shot_number"; "predict_stratum" ]
|}.

(** The sub-group schemas [group_vars]: a dict, kept as an association list
    in insertion order, which is the order [items()] iterates in. *)
Definition group_vars : list (string * GediVars) := [
  ("agbd_prediction", {|
     integer_variables := [
       "algorithm_run_flag_a1"; "algorithm_run_flag_a10";
       "algorithm_run_flag_a2"; "algorithm_run_flag_a3";
       "algorithm_run_flag_a4"; "algorithm_run_flag_a5";
       "algorithm_run_flag_a6"; "l2_quality_flag_a1"; "l2_quality_flag_a10";
       "l2_quality_flag_a2"; "l2_quality_flag_a3"; "l2_quality_flag_a4";
       "l2_quality_flag_a5"; "l2_quality_flag_a6"; "l4_quality_flag_a1";
       "l4_quality_flag_a10"; "l4_quality_flag_a2"; "l4_quality_flag_a3";
       "l4_quality_flag_a4"; "l4_quality_flag_a5"; "l4_quality_flag_a6";
       "predictor_limit_flag_a1"; "predictor_limit_flag_a10";
       "predictor_limit_flag_a2"; "predictor_limit_flag_a3";
       "predictor_limit_flag_a4"; "predictor_limit_flag_a5";
       "predictor_limit_flag_a6"; "response_limit_flag_a1";
       "response_limit_flag_a10"; "response_limit_flag_a2";
       "response_limit_flag_a3"; "response_limit_flag_a4";
       "response_limit_flag_a5"; "response_limit_flag_a6";
       "selected_mode_a1"; "selected_mode_a10"; "selected_mode_a2";
       "selected_mode_a3"; "selected_mode_a4"; "selected_mode_a5";
       "selected_mode_a6"; "selected_mode_flag_a1";
       "selected_mode_flag_a10"; "selected_mode_flag_a2";
       "selected_mode_flag_a3"; "selected_mode_flag_a4";
       "selected_mode_flag_a5"; "selected_mode_flag_a6" ];
     float_variables := [
       "agbd_a1"; "agbd_a10"; "agbd_a2"; "agbd_a3"; "agbd_a4"; "agbd_a5";
       "agbd_a6"; "agbd_pi_lower_a1"; "agbd_pi_lower_a10";
       "agbd_pi_lower_a2"; "agbd_pi_lower_a3"; "agbd_pi_lower_a4";
       "agbd_pi_lower_a5"; "agbd_pi_lower_a6"; "agbd_pi_upper_a1";
       "agbd_pi_upper_a10"; "agbd_pi_upper_a2"; "agbd_pi_upper_a3";
       "agbd_pi_upper_a4"; "agbd_pi_upper_a5"; "agbd_pi_upper_a6";
       "agbd_se_a1"; "agbd_se_a10"; "agbd_se_a2"; "agbd_se_a3";
       "agbd_se_a4"; "agbd_se_a5"; "agbd_se_a6"; "agbd_t_a1"; "agbd_t_a10";
       "agbd_t_a2"; "agbd_t_a3"; "agbd_t_a4"; "agbd_t_a5"; "agbd_t_a6";
       "agbd_t_pi_lower_a1"; "agbd_t_pi_lower_a10"; "agbd_t_pi_lower_a2";
       "agbd_t_pi_lower_a3"; "agbd_t_pi_lower_a4"; "agbd_t_pi_lower_a5";
       "agbd_t_pi_lower_a6"; "agbd_t_pi_upper_a1"; "agbd_t_pi_upper_a10";
       "agbd_t_pi_upper_a2"; "agbd_t_pi_upper_a3"; "agbd_t_pi_upper_a4";
       "agbd_t_pi_upper_a5"; "agbd_t_pi_upper_a6"; "agbd_t_se_a1";
       "agbd_t_se_a10"; "agbd_t_se_a2"; "agbd_t_se_a3"; "agbd_t_se_a4";
       "agbd_t_se_a5"; "agbd_t_se_a6" ];
     string_variables := [] |});
  ("geolocation", {|
     integer_variables := [
       "stale_return_flag" ];
     float_variables := [
       "elev_lowestmode_a1"; "elev_lowestmode_a10"; "elev_lowestmode_a2";
       "elev_lowestmode_a3"; "elev_lowestmode_a4"; "elev_lowestmode_a5";
       "elev_lowestmode_a6"; "lat_lowestmode_a1"; "lat_lowestmode_a10";
       "lat_lowestmode_a2"; "lat_lowestmode_a3"; "lat_lowestmode_a4";
       "lat_lowestmode_a5"; "lat_lowestmode_a6"; "lon_lowestmode_a1";
       "lon_lowestmode_a10"; "lon_lowestmode_a2"; "lon_lowestmode_a3";
       "lon_lowestmode_a4"; "lon_lowestmode_a5"; "lon_lowestmode_a6";
       "sensitivity_a1"; "sensitivity_a10"; "sensitivity_a2";
       "sensitivity_a3"; "sensitivity_a4"; "sensitivity_a5";
       "sensitivity_a6" ];
     string_variables := [] |});
  ("land_cover_data", {|
     integer_variables := [
       "landsat_water_persistence"; "leaf_off_doy"; "leaf_off_flag";
       "leaf_on_cycle"; "leaf_on_doy"; "pft_class"; "region_class";
       "urban_focal_window_size"; "urban_proportion" ];
     float_variables := [
       "landsat_treecover" ];
     string_variables := [] |})
].

(** [filled_vars_float]: the columns whose fill value is -9999. *)
Definition filled_vars_float : list string := [
  "agbd"; "agbd_pi_lower"; "agbd_pi_upper"; "agbd_se"; "agbd_t";
  "agbd_t_se"; "agbd_a1"; "agbd_a10"; "agbd_a2"; "agbd_a3"; "agbd_a4";
  "agbd_a5"; "agbd_a6"; "agbd_pi_lower_a1"; "agbd_pi_lower_a10";
  "agbd_pi_lower_a2"; "agbd_pi_lower_a3"; "agbd_pi_lower_a4";
  "agbd_pi_lower_a5"; "agbd_pi_lower_a6"; "agbd_pi_upper_a1";
  "agbd_pi_upper_a10"; "agbd_pi_upper_a2"; "agbd_pi_upper_a3";
  "agbd_pi_upper_a4"; "agbd_pi_upper_a5"; "agbd_pi_upper_a6"; "agbd_se_a1";
  "agbd_se_a10"; "agbd_se_a2"; "agbd_se_a3"; "agbd_se_a4"; "agbd_se_a5";
  "agbd_se_a6"; "agbd_t_a1"; "agbd_t_a10"; "agbd_t_a2"; "agbd_t_a3";
  "agbd_t_a4"; "agbd_t_a5"; "agbd_t_a6"; "agbd_t_pi_lower_a1";
  "agbd_t_pi_lower_a10"; "agbd_t_pi_lower_a2"; "agbd_t_pi_lower_a3";
  "agbd_t_pi_lower_a4"; "agbd_t_pi_lower_a5"; "agbd_t_pi_lower_a6";
  "agbd_t_pi_upper_a1"; "agbd_t_pi_upper_a10"; "agbd_t_pi_upper_a2";
  "agbd_t_pi_upper_a3"; "agbd_t_pi_upper_a4"; "agbd_t_pi_upper_a5";
  "agbd_t_pi_upper_a6"; "agbd_t_se_a1"; "agbd_t_se_a10"; "agbd_t_se_a2";
  "agbd_t_se_a3"; "agbd_t_se_a4"; "agbd_t_se_a5"; "agbd_t_se_a6" ].

(** [filled_vars_byte]: the flag columns whose fill value is 255. *)
Definition filled_vars_byte : list string := [
  "predictor_limit_flag"; "predictor_limit_flag_a1";
  "predictor_limit_flag_a10"; "predictor_limit_flag_a2";
  "predictor_limit_flag_a3"; "predictor_limit_flag_a4";
  "predictor_limit_flag_a5"; "predictor_limit_flag_a6";
  "response_limit_flag"; "response_limit_flag_a1";
  "response_limit_flag_a10"; "response_limit_flag_a2";
  "response_limit_flag_a3"; "response_limit_flag_a4";
  "response_limit_flag_a5"; "response_limit_flag_a6" ].

(** Every declared schema instance: the top-level one and the sub-groups'. *)
Definition declared_schemas : list GediVars := gedi_vars :: map snd group_vars.

(** [os.path.basename] (POSIX): what follows the last slash. *)
Fixpoint after_last_slash (p : string) : option string :=
  match p with
  | EmptyString => None
  | String c r =>
      match after_last_slash r with
      | Some t => Some t
      | None => if Ascii.eqb c "/"%char then Some r else None
      end
  end.

Definition basename (p : string) : string :=
  match after_last_slash p with
  | Some t => t
  | None => p
  end.

(** ** Exceptions *)

(** The exceptions the modelled calls raise.  [KeyError] carries the labels
    that were not found. *)
Inductive exn :=
| KeyError (missing : list string)
| AttributeError (name : string)
| ValueError (msg : string)
| AssertionError
| OSError (path : string).

Inductive result (A : Type) :=
| Ok (a : A)
| Raise (e : exn).

Arguments Ok {A} a.
Arguments Raise {A} e.

Definition bind {A B} (r : result A) (f : A -> result B) : result B :=
  match r with
  | Ok a => f a
  | Raise e => Raise e
  end.

Notation "x <- r ;; k" := (bind r (fun x => k))
  (at level 61, r at next level, right associativity).

(** A loop whose body may raise: [for x in l: acc = body(acc, x)]. *)
Fixpoint for_each {A S} (body : S -> A -> result S) (l : list A) (s : S)
  : result S :=
  match l with
  | [] => Ok s
  | x :: r => s' <- body s x ;; for_each body r s'
  end.

(** ** The pandas operations the script relies on *)

(** One cell of a table.  Integers and floats are kept apart as the source
    data has them; a float is a rational, since the script only ever
    compares cells with the fill values.  [NaN] is [numpy.nan], the missing
    marker. *)
Inductive cell :=
| VInt (z : Z)
| VFloat (q : Q)
| VStr (s : string)
| NaN.

(** A [pandas.DataFrame]: the row labels and the columns in order, each a
    name with one cell per row. *)
Record DataFrame := mkDataFrame {
  index : list nat;
  columns : list (string * list cell)
}.

(** [pd.DataFrame()]. *)
Definition empty_frame : DataFrame := {| index := []; columns := [] |}.

Definition colnames (df : DataFrame) : list string := map fst (columns df).

Fixpoint lookup {A} (k : string) (l : list (string * A)) : option A :=
  match l with
  | [] => None
  | (k', v) :: r => if String.eqb k k' then Some v else lookup k r
  end.

(** The values of the column labelled [name], if there is one. *)
Definition column (df : DataFrame) (name : string) : option (list cell) :=
  lookup name (columns df).

(** Does cell [c] equal the number [n]?  ([-9999 == -9999.0] in Python.) *)
Definition eq_num (c : cell) (n : Z) : bool :=
  match c with
  | VInt z => Z.eqb z n
  | VFloat q => Qeq_bool q (inject_Z n)
  | VStr _ | NaN => false
  end.

Definition replace_cell (to_replace : Z) (value : cell) (c : cell) : cell :=
  if eq_num c to_replace then value else c.

(** [df.replace(to_replace=n, value=v)]: a new frame, every cell equal to
    [n] replaced by [v]. *)
Definition replace (df : DataFrame) (to_replace : Z) (value : cell)
  : DataFrame :=
  {| index := index df;
     columns := map (fun kc => (fst kc, map (replace_cell to_replace value)
                                            (snd kc)))
                    (columns df) |}.

(** The columns picked by a list of labels, in the order of the labels. *)
Fixpoint pick (cols : list (string * list cell)) (labels : list string)
  : list (string * list cell) :=
  match labels with
  | [] => []
  | n :: r =>
      match lookup n cols with
      | Some c => (n, c) :: pick cols r
      | None => pick cols r
      end
  end.

(** [df.loc[:, labels]]: a new frame of the listed columns; a label that is
    not a column raises [KeyError]. *)
Definition loc_columns (df : DataFrame) (labels : list string)
  : result DataFrame :=
  match filter (fun n => negb (mem n (colnames df))) labels with
  | [] => Ok {| index := index df; columns := pick (columns df) labels |}
  | missing => Raise (KeyError missing)
  end.

(** Assigning the values of one column: an existing column keeps its place,
    a new one goes last. *)
Fixpoint set_column (cols : list (string * list cell)) (name : string)
  (vals : list cell) : list (string * list cell) :=
  match cols with
  | [] => [(name, vals)]
  | (k, c) :: r =>
      if String.eqb name k then (k, vals) :: r
      else (k, c) :: set_column r name vals
  end.

(** [df[name] = values] for an array of values.  A frame without rows takes
    its row labels [0..n-1] from the array (columns it already had are
    filled with NaN); otherwise the array must be as long as the index. *)
Definition setitem (df : DataFrame) (name : string) (vals : list cell)
  : result DataFrame :=
  match index df, vals with
  | [], _ :: _ =>
      Ok {| index := seq 0 (List.length vals);
            columns := set_column
                         (map (fun kc =>
                                 (fst kc, repeat NaN (List.length vals)))
                              (columns df))
                         name vals |}
  | _, _ =>
      if Nat.eqb (List.length vals) (List.length (index df))
      then Ok {| index := index df;
                 columns := set_column (columns df) name vals |}
      else Raise (ValueError
                    "Length of values does not match length of index")
  end.

(** [df[keys] = value] for a list of labels and a frame: the columns of
    [value] are assigned to the labels pairwise, by position.  The script
    only assigns a frame that carries the rows of [df] itself, so the
    alignment of the row labels is the identity and is left out. *)
Definition setitem_frame (df : DataFrame) (keys : list string)
  (value : DataFrame) : result DataFrame :=
  if Nat.eqb (List.length keys) (List.length (columns value))
  then Ok {| index := index df;
             columns := fold_left
                          (fun cols kv => set_column cols (fst kv)
                                                     (snd (snd kv)))
                          (combine keys (columns value))
                          (columns df) |}
  else Raise (ValueError "Columns must be same length as key").

(** [df.name]: attribute access to a column. *)
Definition getattr_column (df : DataFrame) (name : string)
  : result (list cell) :=
  match column df name with
  | Some c => Ok c
  | None => Raise (AttributeError name)
  end.

Definition notnull_cell (c : cell) : bool :=
  match c with
  | NaN => false
  | _ => true
  end.

(** [series.notnull()]. *)
Definition notnull (s : list cell) : list bool := map notnull_cell s.

(** The entries of [l] at the positions where the mask is true. *)
Fixpoint select {A} (mask : list bool) (l : list A) : list A :=
  match mask, l with
  | b :: m, x :: t => if b then x :: select m t else select m t
  | _, _ => []
  end.

(** [df[mask]] for a boolean series: the rows where it is true, with their
    labels. *)
Definition getitem_mask (df : DataFrame) (mask : list bool) : DataFrame :=
  {| index := select mask (index df);
     columns := map (fun kc => (fst kc, select mask (snd kc))) (columns df) |}.

(** A line of the CSV file, kept as its fields before they are formatted. *)
Inductive csv_line :=
| Header (names : list string)
| Row (fields : list cell).

(** The cells of row number [i], in column order. *)
Definition row_at (df : DataFrame) (i : nat) : list cell :=
  map (fun kc => nth i (snd kc) NaN) (columns df).

Definition data_rows (df : DataFrame) : list csv_line :=
  map (fun i => Row (row_at df i)) (seq 0 (List.length (index df))).

(** [df.to_csv(fh, index=False, header=header, mode='a')]: the lines
    appended to the file. *)
Definition to_csv (df : DataFrame) (header : bool) : list csv_line :=
  (if header then [Header (colnames df)] else []) ++ data_rows df.

(** ** The HDF5 source *)

(** A group of the file: its datasets by path below the group
    ([agbd], [geolocation/sensitivity_a1]). *)
Definition hdf_group := list (string * list cell).

(** An open [h5py.File]: the top-level groups, in the order [keys()] yields
    them. *)
Definition hdf_file := list (string * hdf_group).

(** [fh.keys()]. *)
Definition keys (fh : hdf_file) : list string := map fst fh.

(** The dataset at [k/var], if the file has one. *)
Definition lookup_dataset (fh : hdf_file) (k var : string)
  : option (list cell) :=
  match lookup k fh with
  | Some g => lookup var g
  | None => None
  end.

(** ** The collaborators of [gedi_lib] *)

(** Modelled from the spec: [gedi_lib.hdf_to_df], whose code is not part of
    the script.  Given the source handle, a beam name, a variable path and
    the target table, it appends a column named by the trailing segment of
    the path, read from that path in that beam, and leaves the table as it
    is when the path does not exist in the source.  The column is appended
    by a pandas column assignment ([setitem]). *)
Definition hdf_to_df (fh : hdf_file) (k var : string) (df : DataFrame)
  : result DataFrame :=
  match lookup_dataset fh k var with
  | None => Ok df
  | Some vals => setitem df (basename var) vals
  end.

(** [gedi_lib.add_shot_number_breakdown] is not part of the script either.
    [write_csv] below takes it as an argument. *)
Definition augmenter := DataFrame -> result DataFrame.

(** The last [n] characters of [s] ([s[-n:]]). *)
Definition tail_chars (n : nat) (s : string) : string :=
  String.substring (String.length s - n) n s.

(** Modelled from the spec: one [add_shot_number_breakdown].  The spec asks
    for one or more columns derived from the shot identifier, added in
    place, with no row or column removed or reordered.  This one reads
    [shot_number] and adds the shot's number within its beam, the last
    eight characters of the identifier. *)
Definition add_shot_number_breakdown : augmenter := fun df =>
  match column df "shot_number" with
  | None => Raise (KeyError ["shot_number"])
  | Some ids =>
      setitem df "shot_number_within_beam"
              (map (fun c => match c with
                             | VStr s => VStr (tail_chars 8 s)
                             | _ => NaN
                             end) ids)
  end.

(** ** [write_csv] *)

(** The variable paths [write_csv] fetches for a beam, in order: the
    top-level names, then [group/name] for every sub-group. *)
Definition fetched_paths : list string :=
  all_vars gedi_vars
  ++ flat_map (fun gv => map (fun l4a_var => fst gv ++ "/" ++ l4a_var)
                             (all_vars (snd gv)))%string
              group_vars.

(** Lines 310-318: the table of beam [k], one column per fetched path. *)
Definition beam_frame (fh : hdf_file) (k : string) : result DataFrame :=
  df <- for_each (fun df v => hdf_to_df fh k v df)
                 (all_vars gedi_vars) empty_frame ;;
  for_each
    (fun df gv =>
       for_each (fun df l4a_var =>
                   hdf_to_df fh k (fst gv ++ "/" ++ l4a_var)%string df)
                (all_vars (snd gv)) df)
    group_vars df.

(** One of the two replacements of lines 319-322:
    [df[cols] = df.loc[:, cols].replace(to_replace=n, value=np.nan)]. *)
Definition replace_in_columns (cols : list string) (to_replace : Z)
  (df : DataFrame) : result DataFrame :=
  sub <- loc_columns df cols ;;
  setitem_frame df cols (replace sub to_replace NaN).

(** Lines 319-322: the sentinel cleaning. *)
Definition sentinel_clean (df : DataFrame) : result DataFrame :=
  df <- replace_in_columns filled_vars_float (-9999) df ;;
  replace_in_columns filled_vars_byte 255 df.

(** Lines 326-327: the rows with both coordinates. *)
Definition filter_rows (df : DataFrame) : result DataFrame :=
  lat <- getattr_column df "lat_lowestmode" ;;
  let df := getitem_mask df (notnull lat) in
  lon <- getattr_column df "lon_lowestmode" ;;
  Ok (getitem_mask df (notnull lon)).

(** Lines 310-327: assemble, clean, filter. *)
Definition beam_table (fh : hdf_file) (k : string) : result DataFrame :=
  df <- beam_frame fh k ;;
  df <- sentinel_clean df ;;
  filter_rows df.

(** Lines 310-328: what the loop body computes for beam [k] before it
    writes. *)
Definition process_beam (aug : augmenter) (fh : hdf_file) (k : string)
  : result DataFrame :=
  df <- beam_table fh k ;;
  aug df.

(** The state the loop of [write_csv] threads: the flag [is_first], the
    lines written to the CSV handle and the lines printed. *)
Record loop_state := mkLoopState {
  is_first : bool;
  csv_file : list csv_line;
  stdout : list string
}.

Definition tab : string := String (ascii_of_nat 9) EmptyString.

(** The loop of [write_csv] over the keys still to visit.  An exception
    leaves the loop with the state reached. *)
Fixpoint write_csv_loop (aug : augmenter) (fh : hdf_file)
  (ks : list string) (st : loop_state) : loop_state * result unit :=
  match ks with
  | [] => (st, Ok tt)
  | k :: rest =>
      if negb (startswith k "BEAM") then write_csv_loop aug fh rest st
      else
        let st := {| is_first := is_first st;
                     csv_file := csv_file st;
                     stdout := stdout st ++ [tab ++ " " ++ k]%string |} in
        match process_beam aug fh k with
        | Raise e => (st, Raise e)
        | Ok df =>
            write_csv_loop aug fh rest
              {| is_first := false;
                 csv_file := csv_file st ++ to_csv df (is_first st);
                 stdout := stdout st |}
        end
  end.

(** [write_csv(l4a_hdf_fh, csv_file)], for a handle that holds the lines
    [written] so far. *)
Definition write_csv (aug : augmenter) (fh : hdf_file)
  (written : list csv_line) : loop_state * result unit :=
  write_csv_loop aug fh (keys fh)
    {| is_first := true; csv_file := written; stdout := [] |}.

(** ** [extract_values] *)

(** What a run does to the outside, in order. *)
Inductive event :=
| LogError (msg : string)
| OpenRead (path : string)
| OpenWrite (path : string)
| Print (line : string).

(** The outside world: the HDF5 files that can be opened, the content of
    the other files, and what has happened so far. *)
Record world := mkWorld {
  h5_files : string -> option hdf_file;
  files : string -> option (list csv_line);
  events : list event
}.

Definition log_event (w : world) (es : list event) : world :=
  {| h5_files := h5_files w; files := files w; events := events w ++ es |}.

Definition write_file (w : world) (path : string) (content : list csv_line)
  : world :=
  {| h5_files := h5_files w;
     files := fun p => if String.eqb p path then Some content else files w p;
     events := events w |}.

(** [extract_values(input_paths, output_path)]. *)
Definition extract_values (aug : augmenter) (input_paths : list string)
  (output_path : string) (w : world) : world * result unit :=
  match input_paths with
  | [l4a_path] =>
      let basename := basename l4a_path in
      if negb (startswith basename "GEDI") || negb (endswith basename ".h5")
      then
        (log_event w
           [LogError ("Input path is not a GEDI filename: " ++ l4a_path)],
         Ok tt)
      else
        match h5_files w l4a_path with
        | None => (w, Raise (OSError l4a_path))
        | Some l4a_hdf_fh =>
            let w := log_event w [OpenRead l4a_path] in
            let w := write_file (log_event w [OpenWrite output_path])
                                output_path [] in
            let (st, r) := write_csv aug l4a_hdf_fh [] in
            (write_file (log_event w (map Print (stdout st)))
                        output_path (csv_file st), r)
        end
  | _ => (w, Raise AssertionError)
  end.

(** ** Fixtures and vocabulary for the statements *)

(** The order [sorted] sorts by, and its strict part. *)
Definition str_le (a b : string) : Prop := String.leb a b = true.
Definition str_lt (a b : string) : Prop := String.ltb a b = true.

(** The names a schema instance declares, over its three kinds. *)
Definition declared_names (g : GediVars) : list string :=
  integer_variables g ++ float_variables g ++ string_variables g.

(** What [replace_in_columns cols n] makes of the column [kc]. *)
Definition replaced_in (cols : list string) (n : Z) (kc : string * list cell)
  : string * list cell :=
  (fst kc, if mem (fst kc) cols then map (replace_cell n NaN) (snd kc)
           else snd kc).

Definition cleaned_column (kc : string * list cell) : string * list cell :=
  (fst kc,
   if mem (fst kc) filled_vars_float
   then map (replace_cell (-9999) NaN) (snd kc)
   else if mem (fst kc) filled_vars_byte
        then map (replace_cell 255 NaN) (snd kc)
        else snd kc).

Definition cleaned (df : DataFrame) : DataFrame :=
  {| index := index df; columns := map cleaned_column (columns df) |}.

Definition has_coordinates (lat lon : list cell) : list bool :=
  map (fun p => notnull_cell (fst p) && notnull_cell (snd p))
      (combine lat lon).

(** The keys [write_csv] treats as beams, in key order. *)
Definition beam_keys (fh : hdf_file) : list string :=
  filter (fun k => startswith k "BEAM") (keys fh).

(** The tables of the beams processed to completion, in order, up to the
    first beam that raises, and how the sequence ended. *)
Fixpoint completed_tables (aug : augmenter) (fh : hdf_file)
  (beams : list string) : list DataFrame * result unit :=
  match beams with
  | [] => ([], Ok tt)
  | k :: rest =>
      match process_beam aug fh k with
      | Raise e => ([], Raise e)
      | Ok df =>
          let (ts, r) := completed_tables aug fh rest in (df :: ts, r)
      end
  end.

(** A CSV made of one header, that of the first table, and then the rows of
    every table in turn; empty without a table. *)
Definition csv_of_tables (ts : list DataFrame) : list csv_line :=
  match ts with
  | [] => []
  | t :: _ => Header (colnames t) :: flat_map data_rows ts
  end.

Definition is_header (l : csv_line) : bool :=
  match l with
  | Header _ => true
  | Row _ => false
  end.

Definition count_headers (f : list csv_line) : nat :=
  List.length (filter is_header f).

(** A source without any beam group. *)
Definition no_beams : hdf_file := [("ANCILLARY", []); ("METADATA", [])].

(** The guard of [extract_values] on the base name of the input path. *)
Definition is_gedi_filename (name : string) : Prop :=
  startswith name "GEDI" = true /\ endswith name ".h5" = true.

(** A world where [GEDI_sample.h5] holds [fh] and nothing else exists. *)
Definition sample_world (fh : hdf_file) : world :=
  {| h5_files := fun p => if String.eqb p "in/GEDI_sample.h5" then Some fh
                          else if String.eqb p "foo.h5" then Some fh
                          else None;
     files := fun p => if String.eqb p "out.csv"
                       then Some [Header ["stale"]] else None;
     events := [] |}.

(** A beam group with a dataset of [n] zeros at every fetched path, except
    where [overrides] gives the dataset. *)
Definition full_group (n : nat) (overrides : hdf_group) : hdf_group :=
  map (fun p => (p, match lookup p overrides with
                    | Some vals => vals
                    | None => repeat (VInt 0) n
                    end))
      fetched_paths.

(** Scenario A: one beam of two shots; the second shot has the fill value
    -9999 as its latitude and as its [agbd]. *)
Definition scenario_A : hdf_file :=
  [ ("BEAM0000",
     full_group 2
       [ ("lat_lowestmode", [VFloat (25 # 2); VFloat (-9999 # 1)]);
         ("lon_lowestmode", [VFloat (45 # 1); VFloat (45 # 1)]);
         ("agbd", [VFloat (100 # 1); VFloat (-9999 # 1)]) ]) ].

(** Scenario A without the dataset [agbd]. *)
Definition scenario_without_agbd : hdf_file :=
  map (fun kg => (fst kg,
                  filter (fun pv => negb (String.eqb (fst pv) "agbd"))
                         (snd kg)))
      scenario_A.

(** The table of a result, for fixtures known to succeed. *)
Definition frame_of (r : result DataFrame) : DataFrame :=
  match r with
  | Ok df => df
  | Raise _ => empty_frame
  end.

(** The assembled table of scenario A. *)
Definition scenario_A_frame : DataFrame :=
  frame_of (beam_frame scenario_A "BEAM0000").

(** ** Vocabulary for the further properties *)

(** The columns [beam_frame] assembles from the paths [ps] of beam [k]:
    one per path that exists in the source, named by its last segment. *)
Definition fetched_columns (fh : hdf_file) (k : string) (ps : list string)
  : list (string * list cell) :=
  flat_map (fun p => match lookup_dataset fh k p with
                     | Some vals => [(basename p, vals)]
                     | None => []
                     end) ps.

(** A table of [n] rows with the columns [cols]; no rows without columns. *)
Definition frame_with (n : nat) (cols : list (string * list cell))
  : DataFrame :=
  {| index := match cols with [] => [] | _ :: _ => seq 0 n end;
     columns := cols |}.

(** Every dataset that beam [k] has at a fetched path holds [n] values. *)
Definition uniform_beam (fh : hdf_file) (k : string) (n : nat) : Prop :=
  forall p vals, In p fetched_paths -> lookup_dataset fh k p = Some vals ->
                 List.length vals = n.

(** Every column of [names] has a dataset in beam [k] at some fetched
    path. *)
Definition columns_present (fh : hdf_file) (k : string)
  (names : list string) : Prop :=
  forall c, In c names ->
            exists p, In p fetched_paths /\ basename p = c
                      /\ lookup_dataset fh k p <> None.

(** The line [write_csv] prints when it starts on beam [k]. *)
Definition announced (k : string) : string := (tab ++ " " ++ k)%string.

(** The source with only its beam groups. *)
Definition beam_groups (fh : hdf_file) : hdf_file :=
  filter (fun kg => startswith (fst kg) "BEAM") fh.

(** [gedi_vars] with its integer and float names declared the other way
    round. *)
Definition gedi_vars_swapped : GediVars :=
  {| integer_variables := float_variables gedi_vars;
     float_variables := integer_variables gedi_vars;
     string_variables := string_variables gedi_vars |}.

(** The schema of a sub-group ([group_vars[name]]); the top-level schema
    for a name that is not a sub-group. *)
Definition group_schema (name : string) : GediVars :=
  match lookup name group_vars with
  | Some g => g
  | None => gedi_vars
  end.


(** * Properties *)

(** Closed boolean and list facts are settled by evaluation. *)
Ltac by_computation := vm_compute; reflexivity.

(** ** Strings: prefixes, suffixes and base names *)

Lemma startswith_spec s p :
  startswith s p = true <-> exists t, s = (p ++ t)%string.
Proof.
  unfold startswith. revert s.
  induction p as [|a p IH]; intros s.
  - destruct s; cbn; split; eauto.
  - destruct s as [|b s]; cbn [String.prefix String.append].
    + split; [discriminate | intros [t H]; discriminate].
    + destruct (ascii_dec a b) as [-> | Hne].
      * rewrite IH. split; intros [t H]; exists t; congruence.
      * split; [discriminate | intros [t [= H _]]; congruence].
Qed.

Lemma string_length_append a b :
  String.length (a ++ b)%string = (String.length a + String.length b)%nat.
Proof. induction a as [|c a IH]; cbn; auto. Qed.

Lemma substring_whole p : String.substring 0 (String.length p) p = p.
Proof. induction p as [|c p IH]; cbn; auto. now rewrite IH. Qed.

Lemma substring_after t p m :
  String.substring (String.length t) m (t ++ p)%string
  = String.substring 0 m p.
Proof. induction t as [|c t IH]; cbn; auto. Qed.

Lemma substring_split : forall s n,
  (n <= String.length s)%nat ->
  s = (String.substring 0 n s
       ++ String.substring n (String.length s - n) s)%string.
Proof.
  induction s as [|c s IH]; intros [|n] H; cbn in *; try lia; auto.
  - now rewrite substring_whole.
  - f_equal. apply IH. lia.
Qed.

Lemma endswith_spec s p :
  endswith s p = true <-> exists t, s = (t ++ p)%string.
Proof.
  unfold endswith. rewrite andb_true_iff, Nat.leb_le, String.eqb_eq. split.
  - intros [L E].
    exists (String.substring 0 (String.length s - String.length p) s).
    pose proof (substring_split s (String.length s - String.length p)) as H.
    replace (String.length s - (String.length s - String.length p))%nat
      with (String.length p) in H by lia.
    rewrite E in H. apply H. lia.
  - intros [t ->]. rewrite string_length_append. split; [lia |].
    replace (String.length t + String.length p - String.length p)%nat
      with (String.length t) by lia.
    rewrite substring_after. apply substring_whole.
Qed.

Lemma no_slash_after_last p :
  after_last_slash p = None -> forall a b, p <> (a ++ "/" ++ b)%string.
Proof.
  induction p as [|c r IH]; cbn [after_last_slash].
  - intros _ [|x a] b; discriminate.
  - destruct (after_last_slash r) as [t |]; [discriminate |].
    destruct (Ascii.eqb_spec c "/"%char) as [-> | Hc]; [discriminate |].
    intros _ [|x a] b; cbn [String.append]; intros [= H1 H2].
    + contradiction.
    + now apply (IH eq_refl a b).
Qed.

Lemma after_last_slash_Some p t :
  after_last_slash p = Some t ->
  (exists d, p = (d ++ "/" ++ t)%string) /\ after_last_slash t = None.
Proof.
  revert t. induction p as [|c r IH]; cbn [after_last_slash]; intros t.
  - discriminate.
  - destruct (after_last_slash r) as [t' |] eqn:E.
    + intros [= <-]. destruct (IH t' eq_refl) as [[d ->] N].
      split; [now exists (String c d) | exact N].
    + destruct (Ascii.eqb_spec c "/"%char) as [-> | Hc]; [| discriminate].
      intros [= <-]. split; [now exists "" | exact E].
Qed.

(** [os.path.basename]: the path is the base name, or a directory part
    ending in a slash followed by the base name; the base name has no
    slash. *)
Lemma basename_is_last_segment (p : string) :
  (p = basename p \/ exists d, p = (d ++ "/" ++ basename p)%string)
  /\ forall a b, basename p <> (a ++ "/" ++ b)%string.
Proof.
  unfold basename. destruct (after_last_slash p) as [t |] eqn:E.
  - destruct (after_last_slash_Some p t E) as [D N].
    split; [now right | now apply no_slash_after_last].
  - split; [now left | now apply no_slash_after_last].
Qed.

(** The guard of [extract_values] accepts exactly the names of the form
    [GEDI...] that are also of the form [....h5]. *)
Lemma guard_accepts_gedi_h5_names (name : string) :
  is_gedi_filename name
  <-> (exists t, name = ("GEDI" ++ t)%string)
      /\ (exists t, name = (t ++ ".h5")%string).
Proof.
  unfold is_gedi_filename. now rewrite startswith_spec, endswith_spec.
Qed.

(** ** The order of strings and [sorted] *)

Lemma ascii_compare_trans_lt a b c :
  Ascii.compare a b = Lt -> Ascii.compare b c = Lt -> Ascii.compare a c = Lt.
Proof.
  unfold Ascii.compare. rewrite !N.compare_lt_iff. apply N.lt_trans.
Qed.

Lemma string_compare_trans_lt : forall a b c,
  String.compare a b = Lt -> String.compare b c = Lt -> String.compare a c = Lt.
Proof.
  induction a as [|x a IH]; intros [|y b] [|z c]; simpl; try congruence.
  destruct (Ascii.compare x y) eqn:Exy; try discriminate;
    destruct (Ascii.compare y z) eqn:Eyz; try discriminate; intros Hab Hbc.
  - apply Ascii.compare_eq_iff in Exy, Eyz. subst.
    assert (E : Ascii.compare z z = Eq) by (unfold Ascii.compare; apply N.compare_refl).
    rewrite E. eauto.
  - apply Ascii.compare_eq_iff in Exy. subst. now rewrite Eyz.
  - apply Ascii.compare_eq_iff in Eyz. subst. now rewrite Exy.
  - now rewrite (ascii_compare_trans_lt _ _ _ Exy Eyz).
Qed.

Lemma string_compare_refl a : String.compare a a = Eq.
Proof.
  induction a as [|x a IH]; simpl; auto.
  assert (E : Ascii.compare x x = Eq) by (unfold Ascii.compare; apply N.compare_refl).
  now rewrite E.
Qed.

Lemma str_le_lt_eq a b : str_le a b <-> str_lt a b \/ a = b.
Proof.
  unfold str_le, str_lt, String.leb, String.ltb. split.
  - destruct (String.compare a b) eqn:E; intros H; try discriminate; auto.
    right. now apply String.compare_eq_iff.
  - intros [H | ->].
    + destruct (String.compare a b); auto; discriminate.
    + now rewrite string_compare_refl.
Qed.

Lemma str_lt_trans a b c : str_lt a b -> str_lt b c -> str_lt a c.
Proof.
  unfold str_lt, String.ltb. 
  destruct (String.compare a b) eqn:E1; try discriminate.
  destruct (String.compare b c) eqn:E2; try discriminate.
  now rewrite (string_compare_trans_lt _ _ _ E1 E2).
Qed.

Lemma str_le_trans a b c : str_le a b -> str_le b c -> str_le a c.
Proof.
  rewrite !str_le_lt_eq. intros [H1 | ->] [H2 | ->]; auto.
  left. eapply str_lt_trans; eauto.
Qed.

Lemma str_lt_irrefl a : ~ str_lt a a.
Proof. unfold str_lt, String.ltb. now rewrite string_compare_refl. Qed.

Lemma sorted_ascending l : StronglySorted str_le (sorted l).
Proof.
  apply Sorted_StronglySorted.
  - intros a b c. apply str_le_trans.
  - apply StringSort.Sorted_sort.
Qed.

Lemma sorted_permutation l : Permutation l (sorted l).
Proof. apply StringSort.Permuted_sort. Qed.

Lemma ascending_unique : forall l1 l2,
  StronglySorted str_le l1 -> StronglySorted str_le l2 ->
  Permutation l1 l2 -> l1 = l2.
Proof.
  induction l1 as [|x l1 IH]; intros l2 S1 S2 P.
  - now apply Permutation_nil in P.
  - destruct l2 as [|y l2].
    + apply Permutation_sym, Permutation_nil in P. discriminate.
    + inversion S1 as [|? ? S1' F1]; inversion S2 as [|? ? S2' F2]; subst.
      assert (x = y) as ->.
      { assert (Hx : In x (y :: l2)) by (eapply Permutation_in; eauto; now left).
        assert (Hy : In y (x :: l1))
          by (eapply Permutation_in; [apply Permutation_sym; eauto | now left]).
        destruct Hx as [-> | Hx]; auto. destruct Hy as [-> | Hy]; auto.
        rewrite Forall_forall in F1, F2.
        apply String.leb_antisym; [apply F1 | apply F2]; auto. }
      f_equal. apply IH; auto. eapply Permutation_cons_inv; eauto.
Qed.

Lemma sorted_chain_sorted a b : sorted (chain (sorted a) b) = sorted (a ++ b).
Proof.
  apply ascending_unique; try apply sorted_ascending.
  unfold chain.
  rewrite <- (sorted_permutation (sorted a ++ b)), <- (sorted_permutation (a ++ b)).
  apply Permutation_app_tail, Permutation_sym, sorted_permutation.
Qed.

Lemma ascending_nodup_strict : forall l,
  StronglySorted str_le l -> NoDup l -> StronglySorted str_lt l.
Proof.
  induction 1 as [|x l S IH F]; intros N; constructor; inversion N; subst; auto.
  rewrite Forall_forall in *. intros y Hy.
  destruct (proj1 (str_le_lt_eq x y) (F y Hy)) as [H | ->]; auto. contradiction.
Qed.

(** ** Membership, by proof and by evaluation *)

Lemma mem_In x l : mem x l = true <-> In x l.
Proof.
  unfold mem. rewrite existsb_exists. split.
  - intros [y [Hy E]]. apply String.eqb_eq in E. now subst.
  - intros H. exists x. split; auto. apply String.eqb_refl.
Qed.

Lemma mem_not_In x l : mem x l = false <-> ~ In x l.
Proof.
  rewrite <- mem_In. destruct (mem x l); split; congruence.
Qed.

Lemma mem_app x l1 l2 : mem x (l1 ++ l2) = mem x l1 || mem x l2.
Proof. unfold mem. apply existsb_app. Qed.

Lemma nodup_by_computation (l : list string) :
  nodup string_dec l = l -> NoDup l.
Proof. intros <-. apply NoDup_nodup. Qed.

Lemma incl_by_computation (l1 l2 : list string) :
  forallb (fun n => mem n l2) l1 = true -> incl l1 l2.
Proof.
  intros E x Hx. apply mem_In. now apply (proj1 (forallb_forall _ _) E).
Qed.

Lemma incl_dec_colnames (l1 l2 : list string) : {incl l1 l2} + {~ incl l1 l2}.
Proof.
  destruct (forallb (fun n => mem n l2) l1) eqn:E.
  - left. intros x Hx. apply mem_In.
    now apply (proj1 (forallb_forall _ _) E).
  - right. intros H.
    assert (forallb (fun n => mem n l2) l1 = true); [| congruence].
    apply forallb_forall. intros x Hx. now apply mem_In, H.
Qed.

(** ** The schema registry *)

(** C8: for a schema instance whose integer, float and string names are
    sets that do not overlap, [all_vars()] is the lexicographic sort of the
    union of the three: it is [sorted] of their concatenation, strictly
    ascending (so without duplicates) and a rearrangement of the declared
    names; [numeric_vars()] is likewise the sorted union of the integer and
    float names.  Both are functions of the frozen instance alone, so two
    calls return the same sequence. *)
Theorem all_vars_sorted_union (g : GediVars) :
  NoDup (declared_names g) ->
  (all_vars g = sorted (declared_names g)
   /\ StronglySorted str_lt (all_vars g)
   /\ NoDup (all_vars g)
   /\ Permutation (declared_names g) (all_vars g))
  /\ (numeric_vars g = sorted (integer_variables g ++ float_variables g)
      /\ StronglySorted str_lt (numeric_vars g)
      /\ NoDup (numeric_vars g)
      /\ Permutation (integer_variables g ++ float_variables g)
                     (numeric_vars g)).
Proof.
  intros N. unfold declared_names in *.
  assert (Nn : NoDup (integer_variables g ++ float_variables g)).
  { rewrite app_assoc in N. now apply NoDup_app_remove_r in N. }
  assert (E : all_vars g = sorted (integer_variables g ++ float_variables g
                                   ++ string_variables g)).
  { unfold all_vars, numeric_vars. rewrite sorted_chain_sorted.
    unfold chain. now rewrite app_assoc. }
  split; [rewrite E | unfold numeric_vars, chain]; repeat split;
    try apply sorted_permutation;
    try (apply ascending_nodup_strict; [apply sorted_ascending |]);
    eapply Permutation_NoDup; eauto using sorted_permutation.
Qed.

Lemma all_vars_sorted_union_witness :
  NoDup (declared_names gedi_vars)
  /\ all_vars gedi_vars = sorted (declared_names gedi_vars)
  /\ NoDup (all_vars gedi_vars).
Proof.
  assert (N : NoDup (declared_names gedi_vars))
    by (apply nodup_by_computation; vm_compute; reflexivity).
  split; [exact N |].
  destruct (all_vars_sorted_union gedi_vars N) as [[E [_ [D _]]] _].
  split; assumption.
Defined.

Lemma listed_in_some_schema (kind : GediVars -> list string)
  (names : list string) :
  forallb (fun c => existsb (fun g => mem c (kind g)) declared_schemas)
          names = true ->
  Forall (fun c => Exists (fun g => In c (kind g)) declared_schemas) names.
Proof.
  intros E. apply Forall_forall. intros c Hc. apply Exists_exists.
  apply (proj1 (forallb_forall _ _) E) in Hc.
  apply existsb_exists in Hc. destruct Hc as [g [Hg Hm]].
  exists g. split; [exact Hg | now apply mem_In].
Qed.

(** C9: every name of [filled_vars_float] is a float variable of some
    declared schema instance, and every name of [filled_vars_byte] is an
    integer variable of some declared schema instance. *)
Theorem fill_lists_consistent_with_schemas :
  Forall (fun c => Exists (fun g => In c (float_variables g))
                          declared_schemas)
         filled_vars_float
  /\ Forall (fun c => Exists (fun g => In c (integer_variables g))
                             declared_schemas)
            filled_vars_byte.
Proof. split; apply listed_in_some_schema; by_computation. Qed.

(** The two fill lists name each column once and share no column. *)
Lemma fill_lists_have_no_duplicates :
  NoDup (filled_vars_float ++ filled_vars_byte).
Proof. apply nodup_by_computation. by_computation. Qed.

(** No two fetched paths end in the same segment: the sub-groups and the
    top level never assign the same column of a beam table. *)
Lemma fetched_columns_do_not_collide :
  NoDup (map basename fetched_paths).
Proof. apply nodup_by_computation. by_computation. Qed.

(** ** Looking up and selecting columns *)

Lemma lookup_In {A} k (l : list (string * A)) v :
  lookup k l = Some v -> In (k, v) l.
Proof.
  induction l as [|[k' v'] l IH]; simpl; try discriminate.
  destruct (String.eqb_spec k k') as [-> | Hne].
  - intros [= ->]. now left.
  - auto.
Qed.

Lemma lookup_None {A} k (l : list (string * A)) :
  lookup k l = None <-> ~ In k (map fst l).
Proof.
  induction l as [|[k' v'] l IH]; simpl; [tauto |].
  destruct (String.eqb_spec k k') as [-> | Hne].
  - split; [discriminate | intros H; exfalso; auto].
  - rewrite IH. split; intros H; [intros [E | I]; auto; congruence | auto].
Qed.

Lemma lookup_Some_of_In {A} k (l : list (string * A)) :
  In k (map fst l) -> exists v, lookup k l = Some v.
Proof.
  intros H. destruct (lookup k l) eqn:E; eauto.
  apply lookup_None in E. contradiction.
Qed.

Lemma lookup_map_values {A B} (f : A -> B) k (l : list (string * A)) :
  lookup k (map (fun kc => (fst kc, f (snd kc))) l)
  = option_map f (lookup k l).
Proof.
  induction l as [|[k' v] l IH]; simpl; auto.
  now destruct (String.eqb k k').
Qed.

Lemma filter_missing_nil labels names :
  filter (fun n => negb (mem n names)) labels = [] <-> incl labels names.
Proof.
  induction labels as [|n r IH]; simpl.
  - split; auto. intros _ x [].
  - destruct (mem n names) eqn:E; simpl.
    + rewrite IH. apply mem_In in E. split.
      * intros H x [<- | Hx]; auto.
      * intros H x Hx. apply H. now right.
    + split; [discriminate |]. intros H. exfalso.
      apply mem_not_In in E. apply E, H. now left.
Qed.

Lemma loc_columns_ok df labels :
  incl labels (colnames df) ->
  loc_columns df labels
  = Ok {| index := index df; columns := pick (columns df) labels |}.
Proof.
  intros H. unfold loc_columns.
  now rewrite (proj2 (filter_missing_nil labels (colnames df)) H).
Qed.

Lemma loc_columns_missing df labels :
  ~ incl labels (colnames df) ->
  exists missing, loc_columns df labels = Raise (KeyError missing)
                  /\ missing <> []
                  /\ forall n, In n missing
                               <-> In n labels /\ ~ In n (colnames df).
Proof.
  intros H. unfold loc_columns.
  destruct (filter (fun n => negb (mem n (colnames df))) labels) as [|m ms] eqn:E.
  - apply filter_missing_nil in E. contradiction.
  - exists (m :: ms). split; [reflexivity |]. split; [discriminate |].
    intros n. rewrite <- E, filter_In, negb_true_iff, mem_not_In. tauto.
Qed.

Lemma length_pick cols labels :
  incl labels (map fst cols) -> List.length (pick cols labels) = List.length labels.
Proof.
  induction labels as [|n r IH]; simpl; auto. intros H.
  destruct (lookup_Some_of_In n cols) as [v ->]; [apply H; now left |].
  simpl. f_equal. apply IH. intros x Hx. apply H. now right.
Qed.

(** ** Replacing a fill value in listed columns *)

Section Replacement.

Variable s : Z.

Lemma set_column_replaced cols done n c :
  NoDup (map fst cols) -> lookup n cols = Some c ->
  set_column (map (replaced_in done s) cols) n (map (replace_cell s NaN) c)
  = map (replaced_in (done ++ [n]) s) cols.
Proof.
  induction cols as [|[k c0] cols IH]; simpl; try discriminate.
  intros N L. inversion N as [|? ? Hk N']; subst.
  destruct (String.eqb_spec n k) as [-> | Hne].
  - injection L as ->. unfold replaced_in at 2. simpl.
    rewrite mem_app. replace (mem k [k]) with true
      by (simpl; now rewrite String.eqb_refl).
    rewrite orb_true_r. f_equal. apply map_ext_in. intros [k' c'] Hin.
    unfold replaced_in. simpl. rewrite mem_app. simpl.
    destruct (String.eqb_spec k' k) as [-> | _].
    + exfalso. apply Hk. now apply (in_map fst) in Hin.
    + now rewrite !orb_false_r.
  - rewrite IH by assumption. f_equal. unfold replaced_in. simpl.
    rewrite mem_app. simpl.
    destruct (String.eqb_spec k n) as [-> | _]; [congruence |].
    now rewrite !orb_false_r.
Qed.

Lemma assign_replaced cols : forall labels done,
  NoDup (map fst cols) -> incl labels (map fst cols) ->
  fold_left (fun acc kv => set_column acc (fst kv) (snd (snd kv)))
            (combine labels
                     (map (fun kc => (fst kc, map (replace_cell s NaN) (snd kc)))
                          (pick cols labels)))
            (map (replaced_in done s) cols)
  = map (replaced_in (done ++ labels) s) cols.
Proof.
  induction labels as [|n r IH]; intros done N I; simpl.
  - now rewrite app_nil_r.
  - destruct (lookup_Some_of_In n cols) as [c Hc]; [apply I; now left |].
    rewrite Hc. simpl. rewrite set_column_replaced by assumption.
    rewrite IH; auto.
    + now rewrite <- app_assoc.
    + intros x Hx. apply I. now right.
Qed.

Lemma replaced_in_nil cols : map (replaced_in [] s) cols = cols.
Proof.
  rewrite <- (map_id cols) at 2. apply map_ext. now intros [k c].
Qed.

Lemma replace_in_columns_ok cols df :
  NoDup (colnames df) -> incl cols (colnames df) ->
  replace_in_columns cols s df
  = Ok {| index := index df;
          columns := map (replaced_in cols s) (columns df) |}.
Proof.
  intros N I. unfold replace_in_columns. rewrite loc_columns_ok by assumption.
  simpl. unfold setitem_frame, replace. simpl.
  rewrite length_map, length_pick by assumption. rewrite Nat.eqb_refl.
  do 2 f_equal.
  pose proof (assign_replaced (columns df) cols [] N I) as H.
  now rewrite replaced_in_nil in H.
Qed.

Lemma replace_in_columns_missing cols df :
  ~ incl cols (colnames df) ->
  exists missing, replace_in_columns cols s df = Raise (KeyError missing)
                  /\ missing <> []
                  /\ forall n, In n missing
                               <-> In n cols /\ ~ In n (colnames df).
Proof.
  intros H. destruct (loc_columns_missing df cols H) as [m [E R]].
  exists m. split; auto. unfold replace_in_columns. now rewrite E.
Qed.

Lemma colnames_replaced cols l :
  map fst (map (replaced_in cols s) l) = map fst l.
Proof. rewrite map_map. now apply map_ext. Qed.

End Replacement.

(** ** The sentinel cleaning *)

Lemma fill_lists_disjoint n :
  mem n filled_vars_float = true -> mem n filled_vars_byte = false.
Proof.
  intros H. apply mem_In in H. revert n H.
  assert (E : forallb (fun n => negb (mem n filled_vars_byte))
                      filled_vars_float = true) by (vm_compute; reflexivity).
  intros n Hn. apply negb_true_iff.
  now apply (proj1 (forallb_forall _ _) E).
Qed.

Lemma replaced_twice_cleaned kc :
  replaced_in filled_vars_byte 255 (replaced_in filled_vars_float (-9999) kc)
  = cleaned_column kc.
Proof.
  destruct kc as [k c]. unfold replaced_in, cleaned_column. cbn [fst snd].
  destruct (mem k filled_vars_float) eqn:F.
  - now rewrite (fill_lists_disjoint k F).
  - reflexivity.
Qed.

Lemma sentinel_clean_ok df :
  NoDup (colnames df) ->
  incl (filled_vars_float ++ filled_vars_byte) (colnames df) ->
  sentinel_clean df = Ok (cleaned df).
Proof.
  intros N I. unfold sentinel_clean.
  rewrite replace_in_columns_ok; auto.
  2:{ intros x Hx. apply I, in_or_app. now left. }
  cbn [bind]. rewrite replace_in_columns_ok; unfold colnames; cbn [columns index].
  - unfold cleaned. do 2 f_equal. rewrite map_map. apply map_ext.
    apply replaced_twice_cleaned.
  - now rewrite colnames_replaced.
  - rewrite colnames_replaced. intros x Hx. apply I, in_or_app. now right.
Qed.

Lemma sentinel_clean_missing df :
  NoDup (colnames df) ->
  ~ incl (filled_vars_float ++ filled_vars_byte) (colnames df) ->
  exists missing,
    sentinel_clean df = Raise (KeyError missing)
    /\ missing <> []
    /\ forall n, In n missing ->
                 In n (filled_vars_float ++ filled_vars_byte)
                 /\ ~ In n (colnames df).
Proof.
  intros N H. unfold sentinel_clean.
  destruct (incl_dec_colnames filled_vars_float (colnames df)) as [If | If].
  - rewrite replace_in_columns_ok by assumption. cbn [bind].
    destruct (replace_in_columns_missing 255 filled_vars_byte
                {| index := index df;
                   columns := map (replaced_in filled_vars_float (-9999))
                                  (columns df) |})
      as [m [E [Hm R]]].
    + unfold colnames. simpl. rewrite colnames_replaced. intros Ib. apply H.
      intros x Hx. apply in_app_or in Hx. destruct Hx; auto.
    + exists m. rewrite E. split; [reflexivity |]. split; [assumption |].
      intros n Hn. apply R in Hn. unfold colnames in Hn. cbn [columns] in Hn.
      rewrite colnames_replaced in Hn. destruct Hn as [Hb Hc].
      apply conj; [apply in_or_app; now right | exact Hc].
  - destruct (replace_in_columns_missing (-9999) filled_vars_float df If)
      as [m [E [Hm R]]].
    exists m. rewrite E. split; [reflexivity |]. split; [assumption |].
    intros n Hn. apply R in Hn. destruct Hn as [Hf Hc].
    apply conj; [apply in_or_app; now left | exact Hc].
Qed.

Lemma replace_cell_idempotent n c :
  replace_cell n NaN (replace_cell n NaN c) = replace_cell n NaN c.
Proof.
  unfold replace_cell. destruct (eq_num c n) eqn:E; simpl; auto.
  now rewrite E.
Qed.

Lemma cleaned_column_idempotent kc :
  cleaned_column (cleaned_column kc) = cleaned_column kc.
Proof.
  destruct kc as [k c]. unfold cleaned_column. cbn [fst snd].
  destruct (mem k filled_vars_float); [| destruct (mem k filled_vars_byte)];
    auto; f_equal; rewrite map_map; apply map_ext;
    intros; apply replace_cell_idempotent.
Qed.

Lemma colnames_cleaned df : colnames (cleaned df) = colnames df.
Proof.
  unfold colnames, cleaned. simpl. rewrite map_map. now apply map_ext.
Qed.

Lemma column_cleaned df name :
  column (cleaned df) name
  = option_map (fun c => snd (cleaned_column (name, c))) (column df name).
Proof.
  unfold column, cleaned. cbn [columns].
  induction (columns df) as [|[k c] l IH]; cbn [map lookup option_map]; auto.
  unfold cleaned_column at 1. cbn [fst snd].
  destruct (String.eqb_spec name k) as [-> | _]; auto.
Qed.


(** C7: cleaning a cleaned table changes nothing: running
    [sentinel_clean] on its own result gives the result of one run (an
    exception of the first run included), since NaN equals no number. *)
Theorem sentinel_clean_idempotent (df : DataFrame) :
  NoDup (colnames df) ->
  (df' <- sentinel_clean df ;; sentinel_clean df') = sentinel_clean df
  /\ forall n, eq_num NaN n = false.
Proof.
  intros N. split; [| reflexivity].
  destruct (incl_dec_colnames (filled_vars_float ++ filled_vars_byte)
                              (colnames df)) as [I | I].
  - rewrite sentinel_clean_ok by assumption. cbn [bind].
    rewrite sentinel_clean_ok by (now rewrite colnames_cleaned).
    f_equal. unfold cleaned. cbn [index columns]. f_equal. rewrite map_map.
    apply map_ext, cleaned_column_idempotent.
  - destruct (sentinel_clean_missing df N I) as [m [E _]]. now rewrite E.
Qed.

(** ** The row filter *)

Lemma select_nil_r {A} (m : list bool) : select m (@nil A) = [].
Proof. now destruct m as [|[] m]. Qed.

Lemma select_map {A B} (f : A -> B) : forall m l,
  map f (select m l) = select m (map f l).
Proof.
  induction m as [|b m IH]; intros [|x l]; simpl; auto.
  destruct b; simpl; now rewrite IH.
Qed.

Lemma select_select {A} : forall (m1 m2 : list bool) (l : list A),
  select (select m1 m2) (select m1 l)
  = select (map (fun p => fst p && snd p) (combine m1 m2)) l.
Proof.
  induction m1 as [|b m1 IH]; intros [|c m2] [|x l]; simpl;
    rewrite ?select_nil_r; auto.
  destruct b; simpl; rewrite IH; auto.
Qed.

Lemma In_select {A} (x : A) : forall m l,
  In x (select m l)
  <-> exists i, nth_error m i = Some true /\ nth_error l i = Some x.
Proof.
  induction m as [|b m IH]; intros l.
  - simpl. split; [intros [] | intros [[|i] [H _]]; discriminate].
  - destruct l as [|y l].
    + simpl. split; [intros [] | intros [[|i] [_ H]]; discriminate].
    + destruct b; simpl.
      * rewrite IH. split.
        -- intros [-> | [i H]]; [exists 0%nat; auto | exists (S i); auto].
        -- intros [[|i] [H1 H2]]; simpl in *;
             [left; congruence | right; eauto].
      * rewrite IH. split.
        -- intros [i H]. now exists (S i).
        -- intros [[|i] [H1 H2]]; simpl in *; [discriminate | eauto].
Qed.

Lemma length_select {A} : forall m (l : list A),
  (List.length (select m l) <= List.length l)%nat.
Proof.
  induction m as [|b m IH]; intros [|x l]; simpl; auto with arith.
  specialize (IH l). destruct b; simpl; lia.
Qed.

Lemma column_getitem_mask df m name :
  column (getitem_mask df m) name = option_map (select m) (column df name).
Proof. unfold column, getitem_mask. simpl. apply lookup_map_values. Qed.

Lemma getitem_mask_twice df m1 m2 :
  getitem_mask (getitem_mask df m1) (select m1 m2)
  = getitem_mask df (map (fun p => fst p && snd p) (combine m1 m2)).
Proof.
  unfold getitem_mask. simpl. f_equal.
  - apply select_select.
  - rewrite map_map. apply map_ext. intros [k c]. simpl.
    now rewrite select_select.
Qed.

Lemma has_coordinates_both lat lon :
  map (fun p : bool * bool => fst p && snd p)
      (combine (notnull lat) (notnull lon))
  = has_coordinates lat lon.
Proof.
  unfold has_coordinates, notnull. revert lon.
  induction lat as [|a lat IH]; intros [|b lon]; simpl; auto.
  now rewrite IH.
Qed.

Lemma filter_rows_ok df lat lon :
  column df "lat_lowestmode" = Some lat ->
  column df "lon_lowestmode" = Some lon ->
  filter_rows df = Ok (getitem_mask df (has_coordinates lat lon)).
Proof.
  intros Hlat Hlon. unfold filter_rows, getattr_column.
  rewrite Hlat. cbn [bind]. rewrite column_getitem_mask, Hlon. cbn [option_map bind].
  f_equal. unfold notnull at 2. rewrite select_map.
  rewrite getitem_mask_twice. now rewrite has_coordinates_both.
Qed.

Lemma nth_error_has_coordinates lat lon i :
  nth_error (has_coordinates lat lon) i = Some true
  <-> exists a b, nth_error lat i = Some a /\ nth_error lon i = Some b
                  /\ a <> NaN /\ b <> NaN.
Proof.
  unfold has_coordinates. revert lon i.
  induction lat as [|a lat IH]; intros [|b lon] [|i]; simpl;
    try (split; [discriminate | intros [? [? [? [? ?]]]]; discriminate]).
  - split.
    + intros [= H]. apply andb_true_iff in H. destruct H as [Ha Hb].
      exists a, b. split; [reflexivity |]. split; [reflexivity |].
      split; intros ->; discriminate.
    + intros [a' [b' [[= <-] [[= <-] [Ha Hb]]]]]. f_equal.
      destruct a, b; simpl; congruence.
  - apply IH.
Qed.

(** C2: on a table with both coordinate columns the filter succeeds and
    keeps exactly the rows where [lat_lowestmode] and [lon_lowestmode] are
    both not NaN: a row label is in the filtered table if and only if it
    labels such a row of the given table, the kept rows are those rows
    unchanged and in order, and no more rows come out than went in. *)
Theorem filter_rows_keeps_rows_with_coordinates
  (df : DataFrame) (lat lon : list cell) :
  column df "lat_lowestmode" = Some lat ->
  column df "lon_lowestmode" = Some lon ->
  exists df',
    filter_rows df = Ok df'
    /\ df' = getitem_mask df (has_coordinates lat lon)
    /\ (forall label,
          In label (index df')
          <-> exists i a b,
                nth_error (index df) i = Some label
                /\ nth_error lat i = Some a /\ nth_error lon i = Some b
                /\ a <> NaN /\ b <> NaN)
    /\ (List.length (index df') <= List.length (index df))%nat.
Proof.
  intros Hlat Hlon. exists (getitem_mask df (has_coordinates lat lon)).
  split; [now apply filter_rows_ok |].
  split; [reflexivity |]. split.
  - intros label. cbn [getitem_mask index]. rewrite In_select. split.
    + intros [i [Hm Hi]]. apply nth_error_has_coordinates in Hm.
      destruct Hm as [a [b H]]. exists i, a, b. tauto.
    + intros [i [a [b [Hi H]]]]. exists i. split; auto.
      apply nth_error_has_coordinates. eauto.
  - apply length_select.
Qed.

(** ** Assembling the table of a beam *)

Lemma for_each_app {A S} (body : S -> A -> result S) : forall l1 l2 s,
  for_each body (l1 ++ l2) s
  = (s' <- for_each body l1 s ;; for_each body l2 s').
Proof.
  induction l1 as [|x l1 IH]; intros l2 s; cbn [for_each app bind]; auto.
  destruct (body s x); cbn [bind]; auto.
Qed.

Lemma for_each_map {A B S} (body : S -> B -> result S) (h : A -> B) :
  forall l s,
  for_each (fun s x => body s (h x)) l s = for_each body (map h l) s.
Proof.
  induction l as [|x l IH]; intros s; cbn [for_each map bind]; auto.
  destruct (body s (h x)); cbn [bind]; auto.
Qed.

Lemma for_each_flat_map {A B S} (body : S -> B -> result S)
  (items : A -> list B) : forall gs s,
  for_each (fun s g => for_each body (items g) s) gs s
  = for_each body (flat_map items gs) s.
Proof.
  induction gs as [|g gs IH]; intros s; cbn [for_each flat_map]; auto.
  rewrite for_each_app.
  destruct (for_each body (items g) s); cbn [bind]; auto.
Qed.

Lemma for_each_ext {A S} (body1 body2 : S -> A -> result S) :
  (forall s x, body1 s x = body2 s x) ->
  forall l s, for_each body1 l s = for_each body2 l s.
Proof.
  intros E. induction l as [|x l IH]; intros s; cbn [for_each]; auto.
  rewrite E. destruct (body2 s x); cbn [bind]; auto.
Qed.

Lemma beam_frame_fetched_paths fh k :
  beam_frame fh k
  = for_each (fun df p => hdf_to_df fh k p df) fetched_paths empty_frame.
Proof.
  unfold beam_frame, fetched_paths. rewrite for_each_app.
  destruct (for_each (fun df v => hdf_to_df fh k v df) (all_vars gedi_vars)
                     empty_frame) as [df | e]; cbn [bind]; auto.
  rewrite <- (for_each_flat_map (fun df p => hdf_to_df fh k p df)).
  apply for_each_ext. intros s gv.
  apply (for_each_map (fun df p => hdf_to_df fh k p df)).
Qed.

(** Column names after an assignment. *)
Lemma In_colnames_set_column cols name vals n :
  In n (map fst (set_column cols name vals))
  <-> n = name \/ In n (map fst cols).
Proof.
  induction cols as [|[k c] cols IH]; cbn [set_column map fst In].
  - intuition.
  - destruct (String.eqb_spec name k) as [-> | Hne]; cbn [map fst In].
    + intuition.
    + rewrite IH. intuition.
Qed.

Lemma NoDup_set_column cols name vals :
  NoDup (map fst cols) -> NoDup (map fst (set_column cols name vals)).
Proof.
  induction cols as [|[k c] cols IH]; cbn [set_column map fst]; intros N.
  - constructor; [intros [] | constructor].
  - destruct (String.eqb_spec name k) as [-> | Hne]; cbn [map fst]; auto.
    inversion N as [|? ? Hk N']; subst. constructor; auto.
    rewrite In_colnames_set_column. intros [E | I]; auto.
Qed.

Lemma setitem_colnames df name vals df' :
  setitem df name vals = Ok df' ->
  (forall n, In n (colnames df') <-> n = name \/ In n (colnames df))
  /\ (NoDup (colnames df) -> NoDup (colnames df')).
Proof.
  unfold setitem, colnames.
  assert (M : forall (f : string * list cell -> list cell),
            map fst (map (fun kc => (fst kc, f kc)) (columns df))
            = map fst (columns df))
    by (intros f; rewrite map_map; now apply map_ext).
  destruct (index df) as [|i idx]; [destruct vals as [|v vals] |];
    try (destruct (Nat.eqb _ _); [| discriminate]);
    intros [= <-]; cbn [columns]; split;
    try (intros n; rewrite In_colnames_set_column, ?M; reflexivity);
    intros N; apply NoDup_set_column; now rewrite ?M.
Qed.

Lemma hdf_to_df_colnames fh k p df df' :
  hdf_to_df fh k p df = Ok df' ->
  (forall n, In n (colnames df')
             -> (n = basename p /\ lookup_dataset fh k p <> None)
                \/ In n (colnames df))
  /\ (NoDup (colnames df) -> NoDup (colnames df')).
Proof.
  unfold hdf_to_df. destruct (lookup_dataset fh k p) as [vals |].
  - intros H. apply setitem_colnames in H. destruct H as [Hn HN].
    split; auto. intros n Hin. apply Hn in Hin.
    destruct Hin; [left; split; [assumption | discriminate] | now right].
  - intros [= <-]. auto.
Qed.

Lemma assembled_colnames fh k c : forall paths df df',
  for_each (fun df p => hdf_to_df fh k p df) paths df = Ok df' ->
  (NoDup (colnames df) -> NoDup (colnames df'))
  /\ ((forall p, In p paths -> basename p = c ->
                 lookup_dataset fh k p = None) ->
      ~ In c (colnames df) -> ~ In c (colnames df')).
Proof.
  induction paths as [|p paths IH]; intros df df'; cbn [for_each].
  - intros [= <-]. auto.
  - destruct (hdf_to_df fh k p df) as [df1 | e] eqn:E; cbn [bind];
      [| discriminate].
    intros H. apply IH in H. destruct H as [HN Hc].
    apply hdf_to_df_colnames in E. destruct E as [En EN].
    split; [auto |]. intros A Hout. apply Hc.
    + intros q Hq. apply A. now right.
    + intros Hin. apply En in Hin. destruct Hin as [[Eb Hl] | Hin]; auto.
      apply Hl, A; [now left | now symmetry].
Qed.

Lemma beam_frame_NoDup fh k df :
  beam_frame fh k = Ok df -> NoDup (colnames df).
Proof.
  rewrite beam_frame_fetched_paths. intros H.
  apply (assembled_colnames fh k "") in H. apply H. constructor.
Qed.

Lemma absent_by_computation fh k c paths :
  forallb (fun p => negb (String.eqb (basename p) c)
                    || match lookup_dataset fh k p with
                       | None => true
                       | Some _ => false
                       end) paths = true ->
  forall p, In p paths -> basename p = c -> lookup_dataset fh k p = None.
Proof.
  intros E p Hp Hb. apply (proj1 (forallb_forall _ _) E) in Hp.
  rewrite Hb, String.eqb_refl in Hp. cbn [negb orb] in Hp.
  destruct (lookup_dataset fh k p); [discriminate | reflexivity].
Qed.

(** ** The loop of [write_csv] *)

Section Loop.

Variable aug : augmenter.
Variable fh : hdf_file.

Lemma write_csv_loop_tables : forall ks st,
  let out := write_csv_loop aug fh ks st in
  let done := completed_tables aug fh
                (filter (fun k => startswith k "BEAM") ks) in
  csv_file (fst out)
  = csv_file st
    ++ match fst done with
       | [] => []
       | t :: rest => to_csv t (is_first st)
                      ++ flat_map (fun t => to_csv t false) rest
       end
  /\ snd out = snd done.
Proof.
  induction ks as [|k ks IH]; intros st; cbn [write_csv_loop filter].
  - cbn. now rewrite app_nil_r.
  - destruct (startswith k "BEAM"); cbn [negb].
    + cbn [completed_tables].
      destruct (process_beam aug fh k) as [df | e].
      * match goal with |- context [write_csv_loop aug fh ks ?s] =>
          destruct (IH s) as [Hc Hr] end.
        cbn zeta in *. rewrite Hc, Hr. cbn [csv_file is_first stdout].
        destruct (completed_tables aug fh
                    (filter (fun k0 => startswith k0 "BEAM") ks))
          as [ts r]. cbn [fst snd]. split; [| reflexivity].
        rewrite <- app_assoc. f_equal.
        destruct ts as [|t ts]; cbn [flat_map]; now rewrite ?app_nil_r.
      * cbn. now rewrite app_nil_r.
    + apply IH.
Qed.


Lemma count_headers_data_rows ts :
  filter is_header (flat_map data_rows ts) = [].
Proof.
  induction ts as [|t ts IH]; cbn [flat_map]; auto.
  rewrite filter_app, IH, app_nil_r. unfold data_rows.
  induction (seq 0 (List.length (index t))); cbn; auto.
Qed.

Lemma completed_tables_all : forall beams,
  snd (completed_tables aug fh beams) = Ok tt ->
  map (process_beam aug fh) beams
  = map Ok (fst (completed_tables aug fh beams)).
Proof.
  induction beams as [|k r IH]; cbn [completed_tables map]; auto.
  destruct (process_beam aug fh k) as [df | e]; [| discriminate].
  destruct (completed_tables aug fh r) as [ts res]. cbn [fst snd] in *.
  intros H. now rewrite IH.
Qed.

Lemma completed_tables_raise k : forall beams,
  In k beams -> (exists e, process_beam aug fh k = Raise e) ->
  exists e, snd (completed_tables aug fh beams) = Raise e.
Proof.
  induction beams as [|b beams IH]; [intros [] |].
  intros [-> | Hin] [e He]; cbn [completed_tables].
  - rewrite He. cbn [snd]. eauto.
  - destruct (process_beam aug fh b) as [df | e']; [| cbn [snd]; eauto].
    destruct (IH Hin) as [e'' He'']; eauto.
    destruct (completed_tables aug fh beams). cbn [snd] in *. eauto.
Qed.

(** C5, as the code has it: the CSV that [write_csv] leaves is
    [csv_of_tables] of the tables of the beams processed to completion,
    taken in the source's key order over the keys that start with [BEAM]
    (other keys are skipped) up to the first beam that raises.  So it holds
    one header, written with the first such table and followed by the data
    rows of every table in turn, each in the table's own row order, when
    at least one beam was processed; and no header at all otherwise.  When
    the run ends normally every beam-prefixed key contributed its table. *)
Theorem csv_has_one_header_then_rows_in_beam_order :
  let out := write_csv aug fh [] in
  let done := completed_tables aug fh (beam_keys fh) in
  csv_file (fst out) = csv_of_tables (fst done)
  /\ snd out = snd done
  /\ count_headers (csv_of_tables (fst done))
     = match fst done with [] => 0%nat | _ :: _ => 1%nat end
  /\ (snd done = Ok tt ->
      map (process_beam aug fh) (beam_keys fh) = map Ok (fst done)).
Proof.
  cbn zeta. unfold write_csv, beam_keys.
  destruct (write_csv_loop_tables (keys fh)
              {| is_first := true; csv_file := []; stdout := [] |})
    as [Hc Hr]. cbn zeta in *. cbn [csv_file is_first] in Hc.
  split; [| split; [exact Hr | split]].
  - rewrite Hc. cbn [app].
    destruct (fst (completed_tables aug fh
                     (filter (fun k => startswith k "BEAM") (keys fh))))
      as [|t ts]; reflexivity.
  - destruct (fst (completed_tables aug fh
                     (filter (fun k => startswith k "BEAM") (keys fh))))
      as [|t ts]; auto.
    unfold count_headers, csv_of_tables. cbn [filter is_header].
    now rewrite count_headers_data_rows.
  - apply completed_tables_all.
Qed.

End Loop.

(** A source without a beam group leaves the CSV without any header. *)
Lemma header_missing_without_beams :
  count_headers
    (csv_file (fst (write_csv add_shot_number_breakdown no_beams []))) <> 1%nat.
Proof. vm_compute. discriminate. Qed.

(** ** A beam without a column of the fill lists *)

(** C3, as the code has it: when no fetched path of beam [k] with the
    trailing segment [c] exists in the source and [c] is named in
    [filled_vars_float] or [filled_vars_byte], the assembled table has no
    column [c] (the fetch left the table as it was), the cleaning step
    applied next raises [KeyError], and so does the processing of the beam;
    a run over a source where [k] is a beam key ends in an exception. *)
Theorem absent_fill_column_aborts_the_beam
  (aug : augmenter) (fh : hdf_file) (k c : string) :
  In c (filled_vars_float ++ filled_vars_byte) ->
  (forall p, In p fetched_paths -> basename p = c ->
             lookup_dataset fh k p = None) ->
  (forall df, beam_frame fh k = Ok df ->
              ~ In c (colnames df)
              /\ exists missing,
                   sentinel_clean df = Raise (KeyError missing)
                   /\ process_beam aug fh k = Raise (KeyError missing))
  /\ (exists e, process_beam aug fh k = Raise e)
  /\ (In k (beam_keys fh) ->
      forall written, exists e, snd (write_csv aug fh written) = Raise e).
Proof.
  intros Hc Habs.
  assert (P : forall df, beam_frame fh k = Ok df ->
                ~ In c (colnames df)
                /\ exists missing,
                     sentinel_clean df = Raise (KeyError missing)
                     /\ process_beam aug fh k = Raise (KeyError missing)).
  { intros df Hdf. pose proof (beam_frame_NoDup fh k df Hdf) as N.
    pose proof Hdf as Hdf'. rewrite beam_frame_fetched_paths in Hdf'.
    apply (assembled_colnames fh k c) in Hdf'. destruct Hdf' as [_ Hout].
    assert (O : ~ In c (colnames df)) by (apply Hout; auto).
    split; [exact O |].
    destruct (sentinel_clean_missing df N) as [m [E _]].
    { intros I. apply O, I, Hc. }
    exists m. split; [exact E |].
    unfold process_beam, beam_table. rewrite Hdf. cbn [bind].
    now rewrite E. }
  assert (R : exists e, process_beam aug fh k = Raise e).
  { destruct (beam_frame fh k) as [df | e] eqn:E.
    - destruct (P df eq_refl) as [_ [m [_ Hm]]]. eauto.
    - exists e. unfold process_beam, beam_table. now rewrite E. }
  split; [exact P |]. split; [exact R |].
  intros Hk written. unfold write_csv.
  destruct (write_csv_loop_tables aug fh (keys fh)
              {| is_first := true; csv_file := written; stdout := [] |})
    as [_ Hr]. cbn zeta in Hr. rewrite Hr.
  now apply (completed_tables_raise aug fh k).
Qed.

(** ** The guard of [extract_values] *)

(** C6: when the base name of the input path does not both start with
    [GEDI] and end with [.h5], [extract_values] logs one error and returns:
    the world is the one it was given plus that log entry, so neither the
    source nor the destination was opened and no file changed.  The base
    name [GEDI_sample.h5] passes the guard, and the run on it goes on to
    open the source and the destination. *)
Theorem bad_filename_logs_and_writes_nothing
  (aug : augmenter) (l4a_path output_path : string) (w : world) :
  ~ is_gedi_filename (basename l4a_path) ->
  extract_values aug [l4a_path] output_path w
  = (log_event w
       [LogError ("Input path is not a GEDI filename: " ++ l4a_path)],
     Ok tt)
  /\ files (fst (extract_values aug [l4a_path] output_path w)) = files w
  /\ events (fst (extract_values aug [l4a_path] output_path w))
     = events w
       ++ [LogError ("Input path is not a GEDI filename: " ++ l4a_path)]
  /\ is_gedi_filename (basename "in/GEDI_sample.h5")
  /\ (forall fh,
        h5_files w "in/GEDI_sample.h5" = Some fh ->
        exists printed,
          events (fst (extract_values aug ["in/GEDI_sample.h5"]
                                      output_path w))
          = events w
            ++ [OpenRead "in/GEDI_sample.h5"; OpenWrite output_path]
            ++ map Print printed).
Proof.
  intros G.
  assert (E : extract_values aug [l4a_path] output_path w
              = (log_event w
                   [LogError ("Input path is not a GEDI filename: "
                              ++ l4a_path)], Ok tt)).
  { unfold extract_values, is_gedi_filename in *.
    destruct (startswith (basename l4a_path) "GEDI");
      destruct (endswith (basename l4a_path) ".h5"); cbn [negb orb]; auto.
    exfalso. apply G. now split. }
  rewrite E. cbn [fst log_event files events].
  split; [reflexivity |]. split; [reflexivity |]. split; [reflexivity |].
  split; [split; vm_compute; reflexivity |].
  intros fh Hfh. unfold extract_values.
  replace (negb (startswith (basename "in/GEDI_sample.h5") "GEDI")
           || negb (endswith (basename "in/GEDI_sample.h5") ".h5"))
    with false by (vm_compute; reflexivity).
  rewrite Hfh. destruct (write_csv aug fh []) as [st r].
  exists (stdout st). cbn [fst write_file log_event events].
  now rewrite <- !app_assoc.
Qed.

Lemma bad_filename_logs_and_writes_nothing_witness :
  ~ is_gedi_filename (basename "foo.h5")
  /\ extract_values add_shot_number_breakdown ["foo.h5"] "out.csv"
                    (sample_world no_beams)
     = (log_event (sample_world no_beams)
          [LogError "Input path is not a GEDI filename: foo.h5"],
        Ok tt).
Proof.
  assert (G : ~ is_gedi_filename (basename "foo.h5")).
  { intros [H _]. vm_compute in H. discriminate. }
  split; [exact G |].
  exact (proj1 (bad_filename_logs_and_writes_nothing
                  add_shot_number_breakdown "foo.h5" "out.csv"
                  (sample_world no_beams) G)).
Defined.



(** ** Scenario A *)

Lemma scenario_A_frame_assembled :
  beam_frame scenario_A "BEAM0000" = Ok scenario_A_frame.
Proof. vm_compute. reflexivity. Qed.

(** C1, as the code has it: [lat_lowestmode] is not in
    [filled_vars_float], so its -9999 is not replaced.  For a beam whose
    assembled table has two rows with [lat_lowestmode] = 12.5, -9999,
    [lon_lowestmode] = 45, 45 and [agbd] = 100, -9999, assembling, cleaning
    and filtering succeed and keep both rows: the second one with latitude
    -9999, longitude 45 and [agbd] NaN. *)
Theorem sentinel_latitude_row_is_kept
  (fh : hdf_file) (k : string) (df : DataFrame) :
  beam_frame fh k = Ok df ->
  incl (filled_vars_float ++ filled_vars_byte) (colnames df) ->
  index df = [0; 1]%nat ->
  column df "lat_lowestmode" = Some [VFloat (25 # 2); VFloat (-9999 # 1)] ->
  column df "lon_lowestmode" = Some [VFloat (45 # 1); VFloat (45 # 1)] ->
  column df "agbd" = Some [VFloat (100 # 1); VFloat (-9999 # 1)] ->
  ~ In "lat_lowestmode" filled_vars_float
  /\ In "agbd" filled_vars_float
  /\ exists df',
       beam_table fh k = Ok df'
       /\ index df' = [0; 1]%nat
       /\ List.length (data_rows df') = 2%nat
       /\ column df' "lat_lowestmode"
          = Some [VFloat (25 # 2); VFloat (-9999 # 1)]
       /\ column df' "lon_lowestmode"
          = Some [VFloat (45 # 1); VFloat (45 # 1)]
       /\ column df' "agbd" = Some [VFloat (100 # 1); NaN].
Proof.
  intros Hbf Hincl Hidx Hlat Hlon Hagbd.
  split; [apply mem_not_In; vm_compute; reflexivity |].
  split; [apply mem_In; vm_compute; reflexivity |].
  pose proof (beam_frame_NoDup fh k df Hbf) as N.
  assert (Clat : column (cleaned df) "lat_lowestmode"
                 = Some [VFloat (25 # 2); VFloat (-9999 # 1)])
    by (rewrite column_cleaned, Hlat; vm_compute; reflexivity).
  assert (Clon : column (cleaned df) "lon_lowestmode"
                 = Some [VFloat (45 # 1); VFloat (45 # 1)])
    by (rewrite column_cleaned, Hlon; vm_compute; reflexivity).
  assert (Cagbd : column (cleaned df) "agbd"
                  = Some [VFloat (100 # 1); NaN])
    by (rewrite column_cleaned, Hagbd; vm_compute; reflexivity).
  exists (getitem_mask (cleaned df) [true; true]).
  split.
  { unfold beam_table. rewrite Hbf. cbn [bind].
    rewrite sentinel_clean_ok by assumption. cbn [bind].
    now rewrite (filter_rows_ok _ _ _ Clat Clon). }
  rewrite !column_getitem_mask, Clat, Clon, Cagbd.
  unfold data_rows. cbn [getitem_mask index cleaned]. rewrite Hidx.
  cbn [select List.length seq map option_map]. repeat split.
Qed.

Lemma sentinel_latitude_row_is_kept_witness :
  beam_frame scenario_A "BEAM0000" = Ok scenario_A_frame
  /\ index scenario_A_frame = [0; 1]%nat
  /\ exists df',
       beam_table scenario_A "BEAM0000" = Ok df'
       /\ List.length (data_rows df') = 2%nat.
Proof.
  split; [exact scenario_A_frame_assembled |].
  split; [vm_compute; reflexivity |].
  destruct (sentinel_latitude_row_is_kept scenario_A "BEAM0000"
              scenario_A_frame scenario_A_frame_assembled)
    as [_ [_ [df' [H1 [_ [H2 _]]]]]];
    try (vm_compute; reflexivity).
  - apply incl_by_computation. vm_compute. reflexivity.
  - exists df'. split; assumption.
Defined.

(** The pipeline on scenario A emits two data rows, not one: the row with
    latitude -9999 is written too. *)
Lemma sentinel_latitude_row_is_emitted :
  exists df,
    beam_table scenario_A "BEAM0000" = Ok df
    /\ List.length (data_rows df) <> 1%nat
    /\ column df "lat_lowestmode"
       = Some [VFloat (25 # 2); VFloat (-9999 # 1)]
    /\ List.length
         (csv_file (fst (write_csv add_shot_number_breakdown scenario_A [])))
       = 3%nat.
Proof.
  exists (frame_of (beam_table scenario_A "BEAM0000")).
  split; [vm_compute; reflexivity |].
  split; [vm_compute; discriminate |].
  split; vm_compute; reflexivity.
Qed.

Lemma absent_fill_column_aborts_the_beam_witness :
  In "agbd" (filled_vars_float ++ filled_vars_byte)
  /\ lookup_dataset scenario_without_agbd "BEAM0000" "agbd" = None
  /\ exists e,
       process_beam add_shot_number_breakdown scenario_without_agbd
                    "BEAM0000" = Raise e.
Proof.
  assert (I : In "agbd" (filled_vars_float ++ filled_vars_byte))
    by (apply mem_In; vm_compute; reflexivity).
  split; [exact I |]. split; [vm_compute; reflexivity |].
  refine (proj1 (proj2 (absent_fill_column_aborts_the_beam
                          add_shot_number_breakdown scenario_without_agbd
                          "BEAM0000" "agbd" I _))).
  apply absent_by_computation. vm_compute. reflexivity.
Defined.

(** Without the dataset [agbd] the run over scenario A raises [KeyError]
    and writes nothing. *)
Lemma absent_agbd_raises_KeyError :
  write_csv add_shot_number_breakdown scenario_without_agbd []
  = ({| is_first := true; csv_file := [];
        stdout := [(tab ++ " BEAM0000")%string] |},
     Raise (KeyError ["agbd"])).
Proof. vm_compute. reflexivity. Qed.


Lemma sentinel_clean_idempotent_witness :
  NoDup (colnames scenario_A_frame)
  /\ (df' <- sentinel_clean scenario_A_frame ;; sentinel_clean df')
     = sentinel_clean scenario_A_frame.
Proof.
  assert (N : NoDup (colnames scenario_A_frame))
    by (apply nodup_by_computation; vm_compute; reflexivity).
  split; [exact N |].
  exact (proj1 (sentinel_clean_idempotent scenario_A_frame N)).
Defined.

Lemma filter_rows_keeps_rows_with_coordinates_witness :
  column (cleaned scenario_A_frame) "lat_lowestmode"
  = Some [VFloat (25 # 2); VFloat (-9999 # 1)]
  /\ column (cleaned scenario_A_frame) "lon_lowestmode"
     = Some [VFloat (45 # 1); VFloat (45 # 1)]
  /\ exists df', filter_rows (cleaned scenario_A_frame) = Ok df'
                 /\ index df' = [0; 1]%nat.
Proof.
  assert (Hlat : column (cleaned scenario_A_frame) "lat_lowestmode"
                 = Some [VFloat (25 # 2); VFloat (-9999 # 1)])
    by (vm_compute; reflexivity).
  assert (Hlon : column (cleaned scenario_A_frame) "lon_lowestmode"
                 = Some [VFloat (45 # 1); VFloat (45 # 1)])
    by (vm_compute; reflexivity).
  split; [exact Hlat |]. split; [exact Hlon |].
  destruct (filter_rows_keeps_rows_with_coordinates
              (cleaned scenario_A_frame) _ _ Hlat Hlon)
    as [df' [H1 [H2 _]]].
  exists df'. split; [exact H1 |]. rewrite H2. vm_compute. reflexivity.
Defined.

(** * Further properties *)

(** ** Assembling a beam whose datasets have one length *)

Lemma set_column_fresh cols name vals :
  ~ In name (map fst cols) ->
  set_column cols name vals = cols ++ [(name, vals)].
Proof.
  induction cols as [|[k c] cols IH]; cbn [set_column map fst In app]; auto.
  intros H. destruct (String.eqb_spec name k) as [-> | _].
  - exfalso. auto.
  - f_equal. apply IH. auto.
Qed.

Lemma setitem_frame_with n cols name vals :
  List.length vals = n -> ~ In name (map fst cols) ->
  setitem (frame_with n cols) name vals
  = Ok (frame_with n (cols ++ [(name, vals)])).
Proof.
  intros L F. unfold setitem, frame_with. cbn [index columns].
  destruct cols as [|c cols].
  - cbn [map app set_column]. destruct vals as [|v vals].
    + cbn in L. subst n. reflexivity.
    + now rewrite L.
  - rewrite (set_column_fresh _ _ _ F).
    assert (E : Nat.eqb (List.length vals) (List.length (seq 0 n)) = true)
      by (rewrite length_seq; now apply Nat.eqb_eq).
    destruct (seq 0 n) as [|i idx] eqn:S.
    + destruct vals; [| discriminate]. reflexivity.
    + rewrite E. reflexivity.
Qed.

Lemma assembled_frame_with fh k n : forall ps acc,
  (forall p vals, In p ps -> lookup_dataset fh k p = Some vals ->
                  List.length vals = n) ->
  NoDup (map fst acc ++ map basename ps) ->
  for_each (fun df p => hdf_to_df fh k p df) ps (frame_with n acc)
  = Ok (frame_with n (acc ++ fetched_columns fh k ps)).
Proof.
  induction ps as [|p ps IH]; intros acc U N;
    cbn [for_each fetched_columns flat_map].
  - now rewrite app_nil_r.
  - unfold hdf_to_df at 1.
    assert (U' : forall q vals, In q ps -> lookup_dataset fh k q = Some vals
                                -> List.length vals = n)
      by (intros q vals Hq; apply U; now right).
    destruct (lookup_dataset fh k p) as [vals |] eqn:E; cbn [bind app].
    + rewrite setitem_frame_with.
      * cbn [bind]. rewrite IH; auto.
        -- now rewrite <- app_assoc.
        -- now rewrite map_app, <- app_assoc.
      * apply (U p); [now left | assumption].
      * cbn [map] in N. apply NoDup_remove_2 in N. intros I. apply N.
        apply in_or_app. now left.
    + apply IH; auto. cbn [map] in N. now apply NoDup_remove_1 in N.
Qed.

Lemma In_fetched_columns fh k n : forall ps,
  In n (map fst (fetched_columns fh k ps))
  <-> exists p, In p ps /\ basename p = n /\ lookup_dataset fh k p <> None.
Proof.
  induction ps as [|q ps IH]; cbn [fetched_columns flat_map map In].
  - split; [intros [] | intros [p [[] _]]].
  - rewrite map_app, in_app_iff. fold (fetched_columns fh k ps). rewrite IH.
    split.
    + intros [H | [p [Hp H]]]; [| exists p; tauto].
      destruct (lookup_dataset fh k q) as [vals |] eqn:E; [| destruct H].
      destruct H as [<- | []]. exists q. rewrite E.
      split; [now left | split; [reflexivity | discriminate]].
    + intros [p [[-> | Hp] [Hb Hl]]]; [left | right; eauto].
      destruct (lookup_dataset fh k p); [now left | congruence].
Qed.

Lemma lookup_fetched_columns fh k p : forall ps,
  NoDup (map basename ps) -> In p ps ->
  lookup (basename p) (fetched_columns fh k ps) = lookup_dataset fh k p.
Proof.
  induction ps as [|q ps IH]; [intros _ [] |].
  cbn [map fetched_columns flat_map]. fold (fetched_columns fh k ps).
  intros N Hp. inversion N as [|? ? Hq N']; subst.
  destruct Hp as [-> | Hp].
  - destruct (lookup_dataset fh k p) as [vals |] eqn:E; cbn [app lookup].
    + now rewrite String.eqb_refl.
    + destruct (lookup (basename p) (fetched_columns fh k ps)) eqn:L; auto.
      exfalso. apply Hq.
      assert (I : In (basename p) (map fst (fetched_columns fh k ps))).
      { destruct (in_dec string_dec (basename p)
                         (map fst (fetched_columns fh k ps))); auto.
        apply lookup_None in n. congruence. }
      apply In_fetched_columns in I. destruct I as [p' [Hp' [Hb _]]].
      rewrite <- Hb. now apply in_map.
  - assert (Hne : basename p <> basename q).
    { intros E. apply Hq. rewrite <- E. now apply in_map. }
    destruct (lookup_dataset fh k q) as [vals |]; cbn [app lookup].
    + destruct (String.eqb_spec (basename p) (basename q)); [contradiction |].
      now apply IH.
    + now apply IH.
Qed.

Lemma assembled_from_empty fh k n ps :
  (forall p vals, In p ps -> lookup_dataset fh k p = Some vals ->
                  List.length vals = n) ->
  NoDup (map basename ps) ->
  for_each (fun df p => hdf_to_df fh k p df) ps empty_frame
  = Ok (frame_with n (fetched_columns fh k ps)).
Proof.
  intros U N. exact (assembled_frame_with fh k n ps [] U N).
Qed.

Lemma beam_frame_uniform fh k n :
  uniform_beam fh k n ->
  beam_frame fh k
  = Ok (frame_with n (fetched_columns fh k fetched_paths)).
Proof.
  intros U. rewrite beam_frame_fetched_paths.
  apply assembled_from_empty; [exact U |].
  apply fetched_columns_do_not_collide.
Qed.

Lemma column_assembled fh k n p :
  In p fetched_paths ->
  column (frame_with n (fetched_columns fh k fetched_paths)) (basename p)
  = lookup_dataset fh k p.
Proof.
  intros Hp. unfold column, frame_with. cbn [columns].
  apply lookup_fetched_columns; [apply fetched_columns_do_not_collide | auto].
Qed.

Lemma columns_present_incl fh k n names :
  columns_present fh k names ->
  incl names (colnames (frame_with n (fetched_columns fh k fetched_paths))).
Proof.
  intros H c Hc. unfold colnames, frame_with. cbn [columns].
  apply In_fetched_columns. now apply H.
Qed.

Lemma colnames_getitem_mask df m :
  colnames (getitem_mask df m) = colnames df.
Proof.
  unfold colnames, getitem_mask. cbn [columns]. rewrite map_map.
  now apply map_ext.
Qed.

Lemma top_level_paths_fetched name :
  In name (all_vars gedi_vars) -> In name fetched_paths /\ basename name = name.
Proof.
  intros H. split; [unfold fetched_paths; apply in_or_app; now left |].
  revert name H. apply Forall_forall.
  assert (E : forallb (fun v => String.eqb (basename v) v)
                      (all_vars gedi_vars) = true) by by_computation.
  apply Forall_forall. intros v Hv. apply String.eqb_eq.
  now apply (proj1 (forallb_forall _ _) E).
Qed.

(** The table the pipeline leaves for a beam whose datasets all hold [n]
    values and which has the columns of the fill lists and both
    coordinates. *)
Lemma beam_table_uniform fh k n lat lon :
  uniform_beam fh k n ->
  columns_present fh k (filled_vars_float ++ filled_vars_byte) ->
  lookup_dataset fh k "lat_lowestmode" = Some lat ->
  lookup_dataset fh k "lon_lowestmode" = Some lon ->
  beam_table fh k
  = Ok (getitem_mask
          (cleaned (frame_with n (fetched_columns fh k fetched_paths)))
          (has_coordinates lat lon)).
Proof.
  intros U P Hlat Hlon. unfold beam_table.
  rewrite (beam_frame_uniform fh k n U). cbn [bind].
  assert (N : NoDup (colnames (frame_with n (fetched_columns fh k
                                               fetched_paths)))).
  { apply (beam_frame_NoDup fh k). now apply beam_frame_uniform. }
  rewrite sentinel_clean_ok; [| assumption | now apply columns_present_incl].
  cbn [bind]. apply filter_rows_ok.
  - destruct (top_level_paths_fetched "lat_lowestmode") as [I B];
      [apply mem_In; by_computation |].
    rewrite column_cleaned. rewrite <- B at 1.
    rewrite column_assembled, Hlat by assumption. cbn [option_map].
    reflexivity.
  - destruct (top_level_paths_fetched "lon_lowestmode") as [I B];
      [apply mem_In; by_computation |].
    rewrite column_cleaned. rewrite <- B at 1.
    rewrite column_assembled, Hlon by assumption. cbn [option_map].
    reflexivity.
Qed.

(** ** What [write_csv] writes and prints *)

Section LoopOutput.

Variable aug : augmenter.
Variable fh : hdf_file.

Lemma write_csv_loop_stdout : forall ks st,
  stdout (fst (write_csv_loop aug fh ks st))
  = stdout st
    ++ map announced
         (firstn (S (List.length
                       (fst (completed_tables aug fh
                               (filter (fun k => startswith k "BEAM") ks)))))
                 (filter (fun k => startswith k "BEAM") ks)).
Proof.
  induction ks as [|k ks IH]; intros st; cbn [write_csv_loop filter].
  - cbn. now rewrite app_nil_r.
  - destruct (startswith k "BEAM"); cbn [negb]; [| apply IH].
    cbn [completed_tables].
    destruct (process_beam aug fh k) as [df | e].
    + rewrite IH. cbn [stdout].
      destruct (completed_tables aug fh
                  (filter (fun k0 => startswith k0 "BEAM") ks)) as [ts r].
      cbn [fst List.length firstn map]. now rewrite <- app_assoc.
    + reflexivity.
Qed.

(** [write_csv] prints one line per beam it starts on, in key order: every
    beam-prefixed key when the run ends normally, and the keys up to and
    including the beam that raises otherwise. *)
Theorem write_csv_announces_each_beam (written : list csv_line) :
  let done := completed_tables aug fh (beam_keys fh) in
  stdout (fst (write_csv aug fh written))
  = map announced (firstn (S (List.length (fst done))) (beam_keys fh))
  /\ (snd done = Ok tt ->
      stdout (fst (write_csv aug fh written)) = map announced (beam_keys fh)).
Proof.
  cbn zeta. unfold write_csv. rewrite write_csv_loop_stdout.
  cbn [stdout app]. fold (beam_keys fh). split; [reflexivity |].
  intros H. apply completed_tables_all in H.
  apply (f_equal (@List.length _)) in H. rewrite !length_map in H.
  rewrite <- H. f_equal. apply firstn_all2. lia.
Qed.

(** [write_csv] only appends: the lines the handle already held stay in
    front, and what is appended, printed and raised does not depend on
    them. *)
Theorem write_csv_only_appends (written : list csv_line) :
  csv_file (fst (write_csv aug fh written))
  = written ++ csv_file (fst (write_csv aug fh []))
  /\ stdout (fst (write_csv aug fh written))
     = stdout (fst (write_csv aug fh []))
  /\ snd (write_csv aug fh written) = snd (write_csv aug fh []).
Proof.
  unfold write_csv.
  destruct (write_csv_loop_tables aug fh (keys fh)
              {| is_first := true; csv_file := written; stdout := [] |})
    as [Hc Hr].
  destruct (write_csv_loop_tables aug fh (keys fh)
              {| is_first := true; csv_file := []; stdout := [] |})
    as [Hc0 Hr0].
  cbn zeta in *. cbn [csv_file is_first] in Hc, Hc0.
  rewrite Hc, Hc0, Hr, Hr0, !write_csv_loop_stdout.
  cbn [app stdout]. auto.
Qed.

End LoopOutput.

(** ** Groups that are not beams, and [extract_values] *)

Lemma lookup_filter_kept {A} (keep : string -> bool) k :
  keep k = true ->
  forall l : list (string * A),
    lookup k (filter (fun kv => keep (fst kv)) l) = lookup k l.
Proof.
  intros K. induction l as [|[k' v] l IH]; cbn [filter lookup fst]; auto.
  destruct (String.eqb_spec k k') as [<- | Hne].
  - rewrite K. cbn [lookup]. now rewrite String.eqb_refl.
  - destruct (keep k'); cbn [lookup]; auto.
    destruct (String.eqb_spec k k'); [contradiction | auto].
Qed.

Lemma beam_frame_beam_groups fh k :
  startswith k "BEAM" = true ->
  beam_frame (beam_groups fh) k = beam_frame fh k.
Proof.
  intros B. rewrite !beam_frame_fetched_paths. apply for_each_ext.
  intros df p. unfold hdf_to_df, lookup_dataset, beam_groups.
  now rewrite (lookup_filter_kept (fun k => startswith k "BEAM") k B).
Qed.

Lemma process_beam_beam_groups aug fh k :
  startswith k "BEAM" = true ->
  process_beam aug (beam_groups fh) k = process_beam aug fh k.
Proof.
  intros B. unfold process_beam, beam_table.
  now rewrite beam_frame_beam_groups.
Qed.

Lemma keys_beam_groups fh : keys (beam_groups fh) = beam_keys fh.
Proof.
  unfold beam_groups, beam_keys.
  induction fh as [|[k g] fh IH]; [reflexivity |].
  change (keys ((k, g) :: fh)) with (k :: keys fh).
  cbn [filter fst]. destruct (startswith k "BEAM").
  - change (keys ((k, g) :: ?l)) with (k :: keys l). now f_equal.
  - exact IH.
Qed.

Lemma write_csv_loop_beam_groups aug fh : forall ks st,
  write_csv_loop aug (beam_groups fh)
                 (filter (fun k => startswith k "BEAM") ks) st
  = write_csv_loop aug fh ks st.
Proof.
  induction ks as [|k ks IH]; intros st; cbn [filter write_csv_loop]; auto.
  destruct (startswith k "BEAM") eqn:B; cbn [negb write_csv_loop]; auto.
  rewrite B. cbn [negb]. rewrite process_beam_beam_groups by assumption.
  destruct (process_beam aug fh k); auto.
Qed.

(** The groups of the source whose name does not start with [BEAM] never
    influence a run: [write_csv] on the source without them writes, prints
    and raises the same. *)
Theorem other_groups_do_not_matter (aug : augmenter) (fh : hdf_file)
  (written : list csv_line) :
  write_csv aug (beam_groups fh) written = write_csv aug fh written.
Proof.
  unfold write_csv. rewrite keys_beam_groups. unfold beam_keys.
  apply write_csv_loop_beam_groups.
Qed.

Lemma extract_values_run aug p out w fh :
  is_gedi_filename (basename p) -> h5_files w p = Some fh ->
  extract_values aug [p] out w
  = (write_file
       (log_event
          (write_file
             (log_event (log_event w [OpenRead p]) [OpenWrite out]) out [])
          (map Print (stdout (fst (write_csv aug fh [])))))
       out (csv_file (fst (write_csv aug fh []))),
     snd (write_csv aug fh [])).
Proof.
  intros [G1 G2] H. unfold extract_values. rewrite G1, G2, H. cbn [negb orb].
  now destruct (write_csv aug fh []).
Qed.

Lemma extract_values_reject aug p out w :
  ~ is_gedi_filename (basename p) ->
  extract_values aug [p] out w
  = (log_event w [LogError ("Input path is not a GEDI filename: " ++ p)],
     Ok tt).
Proof.
  intros G. unfold extract_values, is_gedi_filename in *.
  destruct (startswith (basename p) "GEDI");
    destruct (endswith (basename p) ".h5"); cbn [negb orb]; auto.
  exfalso. apply G. now split.
Qed.


(** [extract_values] logs the error and stops exactly for the paths whose
    base name is not both of the form [GEDI...] and of the form [....h5];
    the directory part of the path plays no role. *)
Theorem extract_values_rejects_exactly_other_names
  (aug : augmenter) (p out : string) (w : world) :
  extract_values aug [p] out w
  = (log_event w [LogError ("Input path is not a GEDI filename: " ++ p)],
     Ok tt)
  <-> ~ ((exists t, basename p = ("GEDI" ++ t)%string)
         /\ (exists t, basename p = (t ++ ".h5")%string)).
Proof.
  rewrite <- guard_accepts_gedi_h5_names. split.
  - intros E G. destruct (h5_files w p) as [fh |] eqn:H.
    + rewrite (extract_values_run aug p out w fh G H) in E.
      apply (f_equal (fun r => events (fst r))) in E.
      cbn [fst events write_file log_event] in E.
      rewrite <- !app_assoc in E. apply app_inv_head in E. discriminate.
    + unfold extract_values in E. destruct G as [G1 G2].
      rewrite G1, G2, H in E. discriminate.
  - apply extract_values_reject.
Qed.



(** ** The schema views *)

Lemma sorted_of_permutation l1 l2 :
  Permutation l1 l2 -> sorted l1 = sorted l2.
Proof.
  intros P. apply ascending_unique; try apply sorted_ascending.
  rewrite <- (sorted_permutation l1), <- (sorted_permutation l2). exact P.
Qed.

Lemma all_vars_sorted_declared g : all_vars g = sorted (declared_names g).
Proof.
  unfold all_vars, numeric_vars, declared_names.
  rewrite sorted_chain_sorted. unfold chain. now rewrite app_assoc.
Qed.

(** The order in which a schema declares its names, and the kind it
    declares them under, never shows in [all_vars()]: two instances that
    declare the same names return the same sequence. *)
Theorem all_vars_ignores_declaration_order (g1 g2 : GediVars) :
  Permutation (declared_names g1) (declared_names g2) ->
  all_vars g1 = all_vars g2.
Proof.
  intros P. rewrite !all_vars_sorted_declared.
  now apply sorted_of_permutation.
Qed.

Lemma all_vars_ignores_declaration_order_witness :
  Permutation (declared_names gedi_vars) (declared_names gedi_vars_swapped)
  /\ all_vars gedi_vars = all_vars gedi_vars_swapped.
Proof.
  assert (P : Permutation (declared_names gedi_vars)
                          (declared_names gedi_vars_swapped)).
  { unfold declared_names, gedi_vars_swapped.
    cbn [integer_variables float_variables string_variables].
    rewrite !app_assoc. apply Permutation_app_tail, Permutation_app_comm. }
  split; [exact P |].
  exact (all_vars_ignores_declaration_order gedi_vars gedi_vars_swapped P).
Defined.

(** Sorting is idempotent, so for a schema without string variables, as
    every sub-group schema is, [all_vars()] is [numeric_vars()]. *)
Theorem all_vars_without_strings (g : GediVars) :
  string_variables g = [] -> all_vars g = numeric_vars g.
Proof.
  intros E. unfold all_vars. rewrite E. unfold numeric_vars at 1.
  rewrite sorted_chain_sorted. unfold chain. now rewrite !app_nil_r.
Qed.

Lemma all_vars_without_strings_witness :
  string_variables (group_schema "geolocation") = []
  /\ all_vars (group_schema "geolocation")
     = numeric_vars (group_schema "geolocation").
Proof.
  assert (E : string_variables (group_schema "geolocation") = [])
    by reflexivity.
  split; [exact E |].
  exact (all_vars_without_strings (group_schema "geolocation") E).
Defined.

(** ** When cleaning and filtering succeed *)

(** The cleaning succeeds exactly on the tables that have every column of
    the two fill lists; otherwise it raises [KeyError] with labels that
    are fill-list columns the table lacks. *)
Theorem sentinel_clean_succeeds_iff_columns_present (df : DataFrame) :
  NoDup (colnames df) ->
  ((exists df', sentinel_clean df = Ok df')
   <-> incl (filled_vars_float ++ filled_vars_byte) (colnames df))
  /\ (forall e, sentinel_clean df = Raise e ->
        exists missing,
          e = KeyError missing /\ missing <> []
          /\ forall n, In n missing ->
                       In n (filled_vars_float ++ filled_vars_byte)
                       /\ ~ In n (colnames df)).
Proof.
  intros N.
  destruct (incl_dec_colnames (filled_vars_float ++ filled_vars_byte)
                              (colnames df)) as [I | I].
  - rewrite (sentinel_clean_ok df N I). split.
    + split; [auto | eauto].
    + discriminate.
  - destruct (sentinel_clean_missing df N I) as [m [E [Hm R]]]. rewrite E.
    split.
    + split; [intros [df' H]; discriminate | contradiction].
    + intros e [= <-]. eauto.
Qed.

Lemma sentinel_clean_succeeds_iff_columns_present_witness :
  NoDup (colnames scenario_A_frame)
  /\ exists df', sentinel_clean scenario_A_frame = Ok df'.
Proof.
  assert (N : NoDup (colnames scenario_A_frame))
    by (apply nodup_by_computation; vm_compute; reflexivity).
  split; [exact N |].
  apply (proj1 (sentinel_clean_succeeds_iff_columns_present
                  scenario_A_frame N)).
  apply incl_by_computation. vm_compute. reflexivity.
Defined.

Lemma filter_rows_without_lat df :
  column df "lat_lowestmode" = None ->
  filter_rows df = Raise (AttributeError "lat_lowestmode").
Proof.
  intros H. unfold filter_rows, getattr_column. now rewrite H.
Qed.

Lemma filter_rows_without_lon df lat :
  column df "lat_lowestmode" = Some lat ->
  column df "lon_lowestmode" = None ->
  filter_rows df = Raise (AttributeError "lon_lowestmode").
Proof.
  intros Hlat Hlon. unfold filter_rows, getattr_column.
  rewrite Hlat. cbn [bind]. now rewrite column_getitem_mask, Hlon.
Qed.

(** The row filter succeeds exactly on the tables that have both
    coordinate columns; otherwise it raises [AttributeError] for the first
    of [lat_lowestmode], [lon_lowestmode] that is not a column. *)
Theorem filter_rows_needs_both_coordinates (df : DataFrame) :
  ((exists df', filter_rows df = Ok df')
   <-> column df "lat_lowestmode" <> None
       /\ column df "lon_lowestmode" <> None)
  /\ (column df "lat_lowestmode" = None ->
      filter_rows df = Raise (AttributeError "lat_lowestmode"))
  /\ (column df "lat_lowestmode" <> None ->
      column df "lon_lowestmode" = None ->
      filter_rows df = Raise (AttributeError "lon_lowestmode")).
Proof.
  destruct (column df "lat_lowestmode") as [lat |] eqn:Hlat.
  - destruct (column df "lon_lowestmode") as [lon |] eqn:Hlon.
    + rewrite (filter_rows_ok df lat lon Hlat Hlon). split.
      * split; [intros _; split; discriminate | eauto].
      * split; [discriminate | intros _; discriminate].
    + rewrite (filter_rows_without_lon df lat Hlat Hlon). split.
      * split; [intros [df' H]; discriminate | intros [_ H]; now elim H].
      * split; [discriminate | reflexivity].
  - rewrite (filter_rows_without_lat df Hlat). split.
    + split; [intros [df' H]; discriminate | intros [H _]; now elim H].
    + split; [reflexivity | intros H; now elim H].
Qed.

Lemma combine_select {A B} : forall m (a : list A) (b : list B),
  combine (select m a) (select m b) = select m (combine a b).
Proof.
  induction m as [|x m IH]; intros a b; [now destruct a, b |].
  destruct a as [|u a], b as [|v b]; cbn [select combine]; auto.
  - now rewrite combine_nil.
  - destruct x; [| apply IH]. cbn [combine]. now rewrite IH.
Qed.

Lemma both_same m :
  map (fun p : bool * bool => fst p && snd p) (combine m m) = m.
Proof.
  induction m as [|b m IH]; cbn; auto. rewrite IH. now destruct b.
Qed.

Lemma has_coordinates_select m lat lon :
  has_coordinates (select m lat) (select m lon)
  = select m (has_coordinates lat lon).
Proof.
  unfold has_coordinates. now rewrite combine_select, select_map.
Qed.

(** Filtering a filtered table changes nothing, and raises what the first
    filtering raised if it raised. *)
Theorem filter_rows_idempotent (df : DataFrame) :
  (df' <- filter_rows df ;; filter_rows df') = filter_rows df.
Proof.
  destruct (column df "lat_lowestmode") as [lat |] eqn:Hlat.
  - destruct (column df "lon_lowestmode") as [lon |] eqn:Hlon.
    + rewrite (filter_rows_ok df lat lon Hlat Hlon). cbn [bind].
      rewrite (filter_rows_ok _ (select (has_coordinates lat lon) lat)
                              (select (has_coordinates lat lon) lon)).
      * f_equal. rewrite has_coordinates_select, getitem_mask_twice.
        now rewrite both_same.
      * now rewrite column_getitem_mask, Hlat.
      * now rewrite column_getitem_mask, Hlon.
    + now rewrite (filter_rows_without_lon df lat Hlat Hlon).
  - now rewrite (filter_rows_without_lat df Hlat).
Qed.

(** ** Cleaning, filtering and the pipeline on a valid beam *)





Lemma select_has_coordinates lat lon :
  Forall (fun c => c <> NaN) (select (has_coordinates lat lon) lat)
  /\ Forall (fun c => c <> NaN) (select (has_coordinates lat lon) lon).
Proof.
  unfold has_coordinates. revert lon.
  induction lat as [|a lat IH]; intros [|b lon]; cbn [combine map select];
    auto.
  cbn [fst snd]. destruct (IH lon) as [H1 H2].
  destruct a, b; cbn [notnull_cell andb]; split; auto;
    constructor; auto; discriminate.
Qed.

(** No row that the filter lets through lacks a coordinate: in the
    filtered table neither [lat_lowestmode] nor [lon_lowestmode] holds a
    NaN. *)
Theorem filtered_rows_have_coordinates (df df' : DataFrame) :
  filter_rows df = Ok df' ->
  exists lat lon,
    column df' "lat_lowestmode" = Some lat
    /\ column df' "lon_lowestmode" = Some lon
    /\ Forall (fun c => c <> NaN) lat
    /\ Forall (fun c => c <> NaN) lon.
Proof.
  intros H.
  destruct (column df "lat_lowestmode") as [lat |] eqn:Elat;
    [| rewrite (filter_rows_without_lat df Elat) in H; discriminate].
  destruct (column df "lon_lowestmode") as [lon |] eqn:Elon;
    [| rewrite (filter_rows_without_lon df lat Elat Elon) in H;
       discriminate].
  rewrite (filter_rows_ok df lat lon Elat Elon) in H. injection H as <-.
  exists (select (has_coordinates lat lon) lat),
         (select (has_coordinates lat lon) lon).
  rewrite !column_getitem_mask, Elat, Elon. cbn [option_map].
  split; [reflexivity |]. split; [reflexivity |].
  apply select_has_coordinates.
Qed.

Lemma filtered_rows_have_coordinates_witness :
  exists df',
    filter_rows scenario_A_frame = Ok df'
    /\ exists lat lon,
         column df' "lat_lowestmode" = Some lat
         /\ column df' "lon_lowestmode" = Some lon
         /\ Forall (fun c => c <> NaN) lat
         /\ Forall (fun c => c <> NaN) lon.
Proof.
  exists (frame_of (filter_rows scenario_A_frame)).
  assert (E : filter_rows scenario_A_frame
              = Ok (frame_of (filter_rows scenario_A_frame)))
    by (vm_compute; reflexivity).
  split; [exact E |].
  exact (filtered_rows_have_coordinates scenario_A_frame _ E).
Defined.

(** For a beam whose datasets all hold [n] values the assembled table has
    one column per fetched path that exists in the source, in fetch order
    (the top-level names first, then each sub-group's), named by the
    path's last segment and holding the dataset; a path that does not
    exist leaves no column.  The table has the rows [0..n-1]. *)
Theorem beam_frame_of_uniform_beam (fh : hdf_file) (k : string) (n : nat) :
  uniform_beam fh k n ->
  exists df,
    beam_frame fh k = Ok df
    /\ columns df = fetched_columns fh k fetched_paths
    /\ (columns df <> [] -> index df = seq 0 n)
    /\ (forall p, In p fetched_paths ->
                  column df (basename p) = lookup_dataset fh k p)
    /\ (forall c, In c (colnames df)
                  <-> exists p, In p fetched_paths /\ basename p = c
                                /\ lookup_dataset fh k p <> None).
Proof.
  intros U. exists (frame_with n (fetched_columns fh k fetched_paths)).
  split; [now apply beam_frame_uniform |]. split; [reflexivity |].
  split; [| split].
  - unfold frame_with. cbn [columns index].
    now destruct (fetched_columns fh k fetched_paths).
  - intros p Hp. now apply column_assembled.
  - intros c. apply In_fetched_columns.
Qed.

Lemma uniform_by_computation fh k n :
  forallb (fun p => match lookup_dataset fh k p with
                    | Some vals => Nat.eqb (List.length vals) n
                    | None => true
                    end) fetched_paths = true ->
  uniform_beam fh k n.
Proof.
  intros E p vals Hp Hl. apply (proj1 (forallb_forall _ _) E) in Hp.
  rewrite Hl in Hp. now apply Nat.eqb_eq.
Qed.

Lemma columns_present_by_computation fh k names :
  forallb (fun c =>
             existsb (fun p => String.eqb (basename p) c
                               && match lookup_dataset fh k p with
                                  | Some _ => true
                                  | None => false
                                  end) fetched_paths) names = true ->
  columns_present fh k names.
Proof.
  intros E c Hc. apply (proj1 (forallb_forall _ _) E) in Hc.
  apply existsb_exists in Hc. destruct Hc as [p [Hp H]].
  apply andb_true_iff in H. destruct H as [Hb Hl].
  apply String.eqb_eq in Hb. exists p. split; [exact Hp |].
  split; [exact Hb |]. destruct (lookup_dataset fh k p); discriminate.
Qed.

Lemma beam_frame_of_uniform_beam_witness :
  uniform_beam scenario_without_agbd "BEAM0000" 2
  /\ exists df,
       beam_frame scenario_without_agbd "BEAM0000" = Ok df
       /\ ~ In "agbd" (colnames df)
       /\ List.length (columns df) = 171%nat.
Proof.
  assert (U : uniform_beam scenario_without_agbd "BEAM0000" 2)
    by (apply uniform_by_computation; vm_compute; reflexivity).
  split; [exact U |].
  destruct (beam_frame_of_uniform_beam scenario_without_agbd "BEAM0000" 2 U)
    as [df [E [C [_ [_ H]]]]].
  exists df. split; [exact E |]. split.
  - intros I. apply H in I. destruct I as [p [Hp [Hb Hl]]]. apply Hl.
    clear Hl. revert p Hp Hb. apply absent_by_computation.
    vm_compute. reflexivity.
  - rewrite C. vm_compute. reflexivity.
Defined.

(** The pipeline on a valid beam: when the datasets of the beam all hold
    [n] values and the beam has the columns of both fill lists and both
    coordinates, assembling, cleaning and filtering succeed; the table has
    the columns of the paths that exist (a path outside the fill lists may
    be absent: its column is left out), and its rows are the shots whose
    two coordinates are not NaN. *)
Theorem beam_table_of_valid_beam
  (fh : hdf_file) (k : string) (n : nat) (lat lon : list cell) :
  uniform_beam fh k n ->
  columns_present fh k (filled_vars_float ++ filled_vars_byte) ->
  lookup_dataset fh k "lat_lowestmode" = Some lat ->
  lookup_dataset fh k "lon_lowestmode" = Some lon ->
  exists df,
    beam_table fh k = Ok df
    /\ colnames df = map fst (fetched_columns fh k fetched_paths)
    /\ index df = select (has_coordinates lat lon) (seq 0 n)
    /\ List.length (data_rows df)
       = List.length (filter (fun b => b) (has_coordinates lat lon)).
Proof.
  intros U P Hlat Hlon.
  exists (getitem_mask
            (cleaned (frame_with n (fetched_columns fh k fetched_paths)))
            (has_coordinates lat lon)).
  split; [now apply beam_table_uniform |].
  rewrite colnames_getitem_mask, colnames_cleaned.
  split; [reflexivity |].
  assert (Hn : List.length lat = n).
  { apply (U "lat_lowestmode"); [| assumption].
    apply top_level_paths_fetched, mem_In. by_computation. }
  assert (Hm : List.length lon = n).
  { apply (U "lon_lowestmode"); [| assumption].
    apply top_level_paths_fetched, mem_In. by_computation. }
  assert (Hc : fetched_columns fh k fetched_paths <> []).
  { intros E.
    assert (I : In "lat_lowestmode"
                   (map fst (fetched_columns fh k fetched_paths))).
    { apply In_fetched_columns. exists "lat_lowestmode".
      destruct (top_level_paths_fetched "lat_lowestmode") as [F B];
        [apply mem_In; by_computation |].
      split; [exact F |]. split; [exact B |]. congruence. }
    rewrite E in I. destruct I. }
  assert (Hi : index (getitem_mask
                        (cleaned (frame_with n (fetched_columns
                                                  fh k fetched_paths)))
                        (has_coordinates lat lon))
               = select (has_coordinates lat lon) (seq 0 n)).
  { cbn [getitem_mask index cleaned frame_with].
    now destruct (fetched_columns fh k fetched_paths). }
  split; [exact Hi |].
  unfold data_rows. rewrite length_map, length_seq, Hi.
  assert (L : List.length (has_coordinates lat lon) = n).
  { unfold has_coordinates. rewrite length_map, length_combine. lia. }
  clear - L. revert n L.
  induction (has_coordinates lat lon) as [|b m IH]; intros n L.
  - reflexivity.
  - destruct n as [|n]; [discriminate |]. injection L as L.
    cbn [seq select filter].
    assert (S : forall s, List.length (select m (seq (S s) n))
                          = List.length (select m (seq s n))).
    { clear. revert n. induction m as [|x m IHm]; intros [|n] s; cbn; auto.
      destruct x; cbn; now rewrite IHm. }
    destruct b; cbn [List.length]; rewrite S; now rewrite (IH n L).
Qed.

Lemma beam_table_of_valid_beam_witness :
  uniform_beam scenario_A "BEAM0000" 2
  /\ columns_present scenario_A "BEAM0000"
                     (filled_vars_float ++ filled_vars_byte)
  /\ exists df, beam_table scenario_A "BEAM0000" = Ok df
                /\ index df = [0; 1]%nat.
Proof.
  assert (U : uniform_beam scenario_A "BEAM0000" 2)
    by (apply uniform_by_computation; vm_compute; reflexivity).
  assert (P : columns_present scenario_A "BEAM0000"
                              (filled_vars_float ++ filled_vars_byte))
    by (apply columns_present_by_computation; vm_compute; reflexivity).
  split; [exact U |]. split; [exact P |].
  destruct (beam_table_of_valid_beam scenario_A "BEAM0000" 2
              [VFloat (25 # 2); VFloat (-9999 # 1)]
              [VFloat (45 # 1); VFloat (45 # 1)] U P)
    as [df [E [_ [I _]]]]; try (vm_compute; reflexivity).
  exists df. split; [exact E | exact I].
Defined.

(** ** The shape of the CSV *)





Lemma write_csv_announces_each_beam_witness :
  snd (completed_tables add_shot_number_breakdown scenario_A
                        (beam_keys scenario_A)) = Ok tt
  /\ stdout (fst (write_csv add_shot_number_breakdown scenario_A []))
     = [announced "BEAM0000"].
Proof.
  assert (H : snd (completed_tables add_shot_number_breakdown scenario_A
                                    (beam_keys scenario_A)) = Ok tt)
    by (vm_compute; reflexivity).
  split; [exact H |].
  exact (proj2 (write_csv_announces_each_beam add_shot_number_breakdown
                  scenario_A []) H).
Defined.
